(** * A shallow embedding of the GBCE stock exchange ([gbce/gbce.py])

    Modelling conventions.
    - Python numbers ([int] and [float] alike) are exact rationals [Q];
      floating-point rounding is not represented.  Two rationals are the
      "same number" when they are [Qeq]; results are nevertheless stated
      with Leibniz equality wherever the code and the formula build the
      same fraction.
    - An attribute that may hold [None] is an [option].
    - A raised exception is a value of [exn]; a call returns a [result].
    - [datetime] values are integers: microseconds since a fixed epoch.
      The range limits of [datetime] and [timedelta] are not represented.
    - [datetime.utcnow()] reads an external clock.  The clock is a
      sequence of readings [utc : nat -> Z]; the state threaded through
      the code is the number of readings taken so far.
    - [str] is [string]; [str.upper] acts on the ASCII letters. *)

From Stdlib Require Import List Bool Arith ZArith QArith Lia.
From Stdlib Require Import Ascii String.
Import ListNotations.

Local Open Scope Q_scope.

(** ** Exceptions and results *)

Inductive exn : Type :=
| ZeroDivisionError
| TypeError.

Inductive result (A : Type) : Type :=
| Ok (a : A)
| Raise (e : exn).

Arguments Ok {A} a.
Arguments Raise {A} e.

Definition bind {A B : Type} (r : result A) (k : A -> result B) : result B :=
  match r with
  | Ok a => k a
  | Raise e => Raise e
  end.

Notation "x <- r ;; k" := (bind r (fun x => k))
  (at level 61, r at next level, right associativity).

(** Python's true division [a / b]. *)
Definition truediv (a b : Q) : result Q :=
  if Qeq_bool b 0 then Raise ZeroDivisionError else Ok (a / b).

(** An operand read from an attribute that may be [None]: arithmetic on
    [None] raises [TypeError]. *)
Definition number (v : option Q) : result Q :=
  match v with
  | Some q => Ok q
  | None => Raise TypeError
  end.

(** ** [str.upper] *)

Definition ascii_upper (c : ascii) : ascii :=
  let n := N_of_ascii c in
  if ((97 <=? n) && (n <=? 122))%N then ascii_of_N (n - 32) else c.

Fixpoint upper (s : string) : string :=
  match s with
  | EmptyString => EmptyString
  | String c s' => String (ascii_upper c) (upper s')
  end.

(** ** Stocks *)

Record StockAttrs : Type := mkStockAttrs {
  symbol : string;
  last_dividend : option Q;
  par_value : Q;
  fixed_dividend : option Q
}.

(** [Stock.__init__(self, symbol, par_value, last_dividend=None,
    fixed_dividend=None)]. *)
Definition Stock_init (sym : string) (par : Q)
    (last fixed : option Q) : StockAttrs :=
  {| symbol := upper sym;
     last_dividend := last;
     par_value := par;
     fixed_dividend := fixed |}.

(** The two concrete subclasses of the abstract class [Stock]. *)
Inductive Stock : Type :=
| CommonTypeStock (a : StockAttrs)
| PreferredTypeStock (a : StockAttrs).

Definition attrs (s : Stock) : StockAttrs :=
  match s with
  | CommonTypeStock a => a
  | PreferredTypeStock a => a
  end.

(** [dividend_yield], dispatched on the class of [self]. *)
Definition dividend_yield (self : Stock) (price : Q) : result Q :=
  match self with
  | CommonTypeStock a =>
      d <- number (last_dividend a) ;;
      truediv d price
  | PreferredTypeStock a =>
      f <- number (fixed_dividend a) ;;
      truediv (f * par_value a) price
  end.

(** [Stock.pe_ratio]: [1 / self.dividend_yield(price)]. *)
Definition pe_ratio (self : Stock) (price : Q) : result Q :=
  y <- dividend_yield self price ;;
  truediv 1 y.

(** ** Trades *)

Inductive TradeType : Type :=
| buy
| sell.

Record Trade : Type := mkTrade {
  stock : Stock;
  quantity : Q;
  trade_type : TradeType;
  price : Q;
  timestamp : Z
}.

(** ** The exchange *)

Record StockExchange : Type := mkStockExchange {
  trades : list Trade
}.

Definition StockExchange_init : StockExchange :=
  {| trades := [] |}.

(** [self.trades.append(trade)]. *)
Definition record_trade (self : StockExchange) (trade : Trade)
    : StockExchange :=
  {| trades := trades self ++ [trade] |}.

(** The builtin [sum]: start from [0] and add from left to right. *)
Definition sum (l : list Q) : Q := fold_left Qplus l 0.

(** [StockExchange.vwap]. *)
Definition vwap (ts : list Trade) : result Q :=
  truediv (sum (map (fun trade => price trade * quantity trade) ts))
          (sum (map quantity ts)).

(** [timedelta(minutes=duration)], in microseconds. *)
Definition timedelta_minutes (duration : Z) : Z :=
  (duration * 60000000)%Z.

(** [attrgetter('stock.symbol')]. *)
Definition stock_symbol (trade : Trade) : string :=
  symbol (attrs (stock trade)).

(** [itertools.groupby]: one group per maximal run of consecutive items
    with the same key, in order. *)
Fixpoint groupby {A : Type} (key : A -> string) (l : list A)
    : list (string * list A) :=
  match l with
  | [] => []
  | x :: xs =>
      match groupby key xs with
      | (k, g) :: rest =>
          if String.eqb (key x) k then (k, x :: g) :: rest
          else (key x, [x]) :: (k, g) :: rest
      | [] => [(key x, [x])]
      end
  end.

(** A list comprehension whose element expression may raise: the first
    exception, in list order, ends the evaluation. *)
Fixpoint map_result {A B : Type} (f : A -> result B) (l : list A)
    : result (list B) :=
  match l with
  | [] => Ok []
  | x :: xs =>
      y <- f x ;;
      ys <- map_result f xs ;;
      Ok (y :: ys)
  end.

(** [functools.reduce] without an initial value. *)
Definition reduce {A : Type} (f : A -> A -> A) (l : list A) : result A :=
  match l with
  | [] => Raise TypeError
  | x :: xs => Ok (fold_left f xs x)
  end.

(** The list [prices] of [all_share_index]. *)
Definition stock_prices (self : StockExchange) : result (list Q) :=
  map_result (fun group => vwap (snd group))
             (groupby stock_symbol (trades self)).

Section Power.

(** The operator [**] on numbers.  Its result on a fractional exponent
    is in general irrational, so the operator is a parameter. *)
Variable power : Q -> Q -> Q.

(** [StockExchange.all_share_index]. *)
Definition all_share_index (self : StockExchange) : result (option Q) :=
  match trades self with
  | [] => Ok None
  | _ :: _ =>
      prices <- stock_prices self ;;
      product <- reduce Qmult prices ;;
      exponent <- truediv 1 (inject_Z (Z.of_nat (List.length prices))) ;;
      Ok (Some (power product exponent))
  end.

End Power.

Section Clock.

(** [utc k] is the value of the [k]-th call of [datetime.utcnow()]. *)
Variable utc : nat -> Z.

(** A computation that reads the clock: from the number of readings
    taken so far to a value and the new number of readings. *)
Definition clocked (A : Type) : Type := nat -> A * nat.

Definition utcnow : clocked Z := fun n => (utc n, S n).

(** [Trade.__init__(self, stock, quantity, trade_type, price)]. *)
Definition Trade_init (s : Stock) (qty : Q) (side : TradeType) (p : Q)
    : clocked Trade :=
  fun n =>
    let (now, n') := utcnow n in
    ({| stock := s; quantity := qty; trade_type := side;
        price := p; timestamp := now |}, n').

(** A call [Trade(stock, quantity, trade_type, price)] with, possibly,
    one more argument for a timestamp.  [__init__] has no such
    parameter: the call with the extra argument raises [TypeError]
    before the body runs. *)
Definition Trade_call (s : Stock) (qty : Q) (side : TradeType) (p : Q)
    (extra : option Z) : clocked (result Trade) :=
  fun n =>
    match extra with
    | None => let (t, n') := Trade_init s qty side p n in (Ok t, n')
    | Some _ => (Raise TypeError, n)
    end.

(** The list comprehension of [volume_weight_stock_price].  The
    condition is evaluated for each trade in turn; [and] reads the
    clock only when the symbol test succeeds. *)
Fixpoint select_trades (sym : string) (duration : Z) (l : list Trade)
    : clocked (list Trade) :=
  fun n =>
    match l with
    | [] => ([], n)
    | trade :: rest =>
        if String.eqb (stock_symbol trade) (upper sym) then
          let (now, n1) := utcnow n in
          let keep :=
            (now - timedelta_minutes duration <=? timestamp trade)%Z in
          let (sel, n2) := select_trades sym duration rest n1 in
          (if keep then trade :: sel else sel, n2)
        else select_trades sym duration rest n
    end.

(** [StockExchange.volume_weight_stock_price]. *)
Definition volume_weight_stock_price (self : StockExchange)
    (sym : string) (duration : Z) : clocked (result (option Q)) :=
  fun n =>
    let (sel, n') := select_trades sym duration (trades self) n in
    (match sel with
     | [] => Ok None
     | _ :: _ => v <- vwap sel ;; Ok (Some v)
     end, n').

End Clock.

(** ** The notions the properties are stated with

    These definitions follow the wording of the specification; they are
    not translations of the code. *)

(** Two characters that are equal or are the two cases of one letter. *)
Definition is_upper_letter (c : ascii) : bool :=
  let n := N_of_ascii c in ((65 <=? n) && (n <=? 90))%N.

Definition same_letter (c d : ascii) : bool :=
  Ascii.eqb c d
  || (is_upper_letter c && (N_of_ascii d =? N_of_ascii c + 32)%N)
  || (is_upper_letter d && (N_of_ascii c =? N_of_ascii d + 32)%N).

(** Case-insensitive comparison of two strings. *)
Fixpoint caseless_eqb (a b : string) : bool :=
  match a, b with
  | EmptyString, EmptyString => true
  | String c a', String d b' => same_letter c d && caseless_eqb a' b'
  | _, _ => false
  end.

(** A stock whose symbol is stored upper-cased, as [Stock_init] stores
    it. *)
Definition normalized (s : Stock) : Prop :=
  upper (symbol (attrs s)) = symbol (attrs s).

(** The closed window [[now - duration, now]], [duration] in minutes. *)
Definition in_window (now duration : Z) (t : Trade) : bool :=
  ((now - timedelta_minutes duration <=? timestamp t)
   && (timestamp t <=? now))%Z.

(** The trades of [log] for [sym] inside the window. *)
Definition window_trades (sym : string) (now duration : Z)
    (log : list Trade) : list Trade :=
  filter (fun t => caseless_eqb (stock_symbol t) sym
                   && in_window now duration t) log.

Definition total_value (ts : list Trade) : Q :=
  sum (map (fun t => price t * quantity t) ts).

Definition total_quantity (ts : list Trade) : Q :=
  sum (map quantity ts).

(** The volume-weighted average price of a set of trades whose total
    quantity is not zero. *)
Definition weighted_average (ts : list Trade) : Q :=
  total_value ts / total_quantity ts.

(** The distinct elements of a list, in order of first occurrence. *)
Fixpoint distinct (l : list string) : list string :=
  match l with
  | [] => []
  | x :: xs => x :: filter (fun y => negb (String.eqb y x)) (distinct xs)
  end.

(** The symbols with at least one recorded trade. *)
Definition traded_symbols (log : list Trade) : list string :=
  distinct (map stock_symbol log).

(** All the trades of one symbol, wherever they are in the log. *)
Definition trades_of (sym : string) (log : list Trade) : list Trade :=
  filter (fun t => String.eqb (stock_symbol t) sym) log.

(** Grouping by symbol: one group per distinct symbol, holding all of
    its trades. *)
Definition group_by_symbol (log : list Trade)
    : list (string * list Trade) :=
  map (fun sym => (sym, trades_of sym log)) (traded_symbols log).

(** The product of a list of numbers. *)
Definition product_of (l : list Q) : Q := fold_left Qmult l 1.

(** The geometric mean of the per-symbol volume-weighted prices. *)
Definition geometric_mean_index (power : Q -> Q -> Q) (log : list Trade)
    : Q :=
  let prices := map (fun g => weighted_average (snd g))
                    (group_by_symbol log) in
  power (product_of prices)
        (1 / inject_Z (Z.of_nat (List.length (traded_symbols log)))).

(** The list after its leading run of trades of symbol [k]. *)
Fixpoint drop_run (k : string) (l : list Trade) : list Trade :=
  match l with
  | [] => []
  | x :: xs => if String.eqb (stock_symbol x) k then drop_run k xs else l
  end.

(** The trades of every symbol are adjacent in the log: once the run
    that starts at a trade is over, its symbol does not come back. *)
Fixpoint symbols_adjacent (l : list Trade) : Prop :=
  match l with
  | [] => True
  | x :: xs =>
      ~ In (stock_symbol x)
           (map stock_symbol (drop_run (stock_symbol x) xs))
      /\ symbols_adjacent xs
  end.

(** Two trades that differ at most in their side. *)
Definition same_but_side (t u : Trade) : Prop :=
  stock t = stock u /\ quantity t = quantity u /\
  price t = price u /\ timestamp t = timestamp u.

(** Constructing the trades described by [orders] one after the other
    and recording each on the exchange. *)
Fixpoint trade_session (utc : nat -> Z)
    (orders : list (Stock * Q * TradeType * Q))
    (self : StockExchange) : clocked StockExchange :=
  fun n =>
    match orders with
    | [] => (self, n)
    | (s, qty, side, p) :: rest =>
        let (t, n') := Trade_init utc s qty side p n in
        trade_session utc rest (record_trade self t) n'
    end.

(** A trade stamped by one of the first [n] readings of the clock. *)
Definition stamped_before (utc : nat -> Z) (n : nat) (t : Trade) : Prop :=
  exists i, (i < n)%nat /\ timestamp t = utc i.

(** A group of [groupby]: a non-empty list of items that have the key
    of the group. *)
Definition run {A : Type} (key : A -> string) (kg : string * list A)
    : Prop :=
  snd kg <> [] /\ Forall (fun x => key x = fst kg) (snd kg).

(** Every character, for checks by enumeration. *)
Definition all_ascii : list ascii := map ascii_of_nat (seq 0 256).

(** ** Notions for the further properties *)

Definition is_lower_letter (c : ascii) : bool :=
  let n := N_of_ascii c in ((97 <=? n) && (n <=? 122))%N.

(** A string of ASCII characters: on these [str.upper] changes the
    letters [a] to [z] and nothing else. *)
Fixpoint ascii_only (s : string) : bool :=
  match s with
  | EmptyString => true
  | String c s' => (N_of_ascii c <? 128)%N && ascii_only s'
  end.

(** The last [datetime], 9999-12-31 23:59:59.999999, in microseconds
    after the first one, 0001-01-01 00:00:00, taken as the epoch. *)
Definition datetime_max : Z := 315537897599999999.

(** A value that [datetime] can hold: below and above this range the
    subtraction of a [timedelta] raises [OverflowError]. *)
Definition datetime_in_range (d : Z) : Prop :=
  (0 <= d <= datetime_max)%Z.

(** The trades that a session builds from [orders] when the clock has
    been read [n] times: one reading each, in order. *)
Fixpoint stamped_orders (utc : nat -> Z) (n : nat)
    (orders : list (Stock * Q * TradeType * Q)) : list Trade :=
  match orders with
  | [] => []
  | (s, qty, side, p) :: rest =>
      mkTrade s qty side p (utc n) :: stamped_orders utc (S n) rest
  end.

(** No two neighbours of the list are equal. *)
Fixpoint neighbours_differ (l : list string) : Prop :=
  match l with
  | x :: ((y :: _) as rest) => x <> y /\ neighbours_differ rest
  | _ => True
  end.

(** Non-decreasing timestamps. *)
Fixpoint in_time_order (l : list Trade) : Prop :=
  match l with
  | t :: ((u :: _) as rest) =>
      (timestamp t <= timestamp u)%Z /\ in_time_order rest
  | _ => True
  end.

(** One step of [groupby]: the item [x] in front of the groups of the
    rest of the list. *)
Definition join_group {A : Type} (key : A -> string) (x : A)
    (G : list (string * list A)) : list (string * list A) :=
  match G with
  | (k, g) :: rest =>
      if String.eqb (key x) k then (k, x :: g) :: rest
      else (key x, [x]) :: (k, g) :: rest
  | [] => [(key x, [x])]
  end.

(** Two trades with the same symbol, quantity and price; the
    timestamps, the sides and the other attributes of the stocks may
    differ. *)
Definition same_for_index (t u : Trade) : Prop :=
  stock_symbol t = stock_symbol u /\ quantity t = quantity u /\
  price t = price u.

(** * Properties *)

(** ** Division *)

Lemma truediv_nonzero (a b : Q) :
  ~ b == 0 -> truediv a b = Ok (a / b).
Proof.
  intros Hb. unfold truediv.
  destruct (Qeq_bool b 0) eqn:E; [|reflexivity].
  apply Qeq_bool_eq in E. contradiction.
Qed.

Lemma truediv_zero (a b : Q) :
  b == 0 -> truediv a b = Raise ZeroDivisionError.
Proof.
  intros Hb. unfold truediv.
  now rewrite (Qeq_eq_bool _ _ Hb).
Qed.

Lemma truediv_cases (a b : Q) :
  truediv a b = if Qeq_bool b 0 then Raise ZeroDivisionError
                else Ok (a / b).
Proof. reflexivity. Qed.

Lemma Qlt_nonzero (p : Q) : 0 < p -> ~ p == 0.
Proof. intros Hp Hz. rewrite Hz in Hp. now apply (Qlt_irrefl 0). Qed.

Lemma Qneg_nonzero (p : Q) : p < 0 -> ~ p == 0.
Proof. intros Hp Hz. rewrite Hz in Hp. now apply (Qlt_irrefl 0). Qed.

(** ** Stocks: the examples of the test suite *)

Example test_record_stock_lowercase_sym :
  symbol (Stock_init "ale" 60 (Some 23) None) = "ALE"%string.
Proof. reflexivity. Qed.

Example test_dividend_yield_common :
  dividend_yield (CommonTypeStock (Stock_init "POP" 100 (Some 8) None)) 100
  = Ok (8 / 100).
Proof. reflexivity. Qed.

Example test_pe_ratio_preferred :
  exists y,
    pe_ratio (PreferredTypeStock
                (Stock_init "GIN" 100 (Some 8) (Some (2 # 100)))) 100 = Ok y
    /\ y == 50.
Proof. eexists. split; reflexivity. Qed.

Example dividend_yield_without_dividend :
  dividend_yield (CommonTypeStock (Stock_init "POP" 100 None None)) 100
  = Raise TypeError.
Proof. reflexivity. Qed.

(** ** Dividend yield *)

(** C4.  For every price [p > 0], the dividend yield of a common stock
    is [last_dividend / p] and that of a preferred stock is
    [fixed_dividend * par_value / p] (the dividend attribute that the
    variant uses being a number). *)
Theorem dividend_yield_formula (a : StockAttrs) (p : Q) :
  0 < p ->
  (forall d, last_dividend a = Some d ->
     dividend_yield (CommonTypeStock a) p = Ok (d / p)) /\
  (forall f, fixed_dividend a = Some f ->
     dividend_yield (PreferredTypeStock a) p = Ok (f * par_value a / p)).
Proof.
  intros Hp. apply Qlt_nonzero in Hp.
  split; intros x Hx; unfold dividend_yield; rewrite Hx; simpl;
    now apply truediv_nonzero.
Qed.

Lemma dividend_yield_formula_witness :
  let gin := Stock_init "GIN" 100 (Some 8) (Some (2 # 100)) in
  dividend_yield (CommonTypeStock gin) 100 = Ok (8 / 100) /\
  dividend_yield (PreferredTypeStock gin) 100
  = Ok ((2 # 100) * 100 / 100).
Proof.
  intros gin.
  destruct (dividend_yield_formula gin 100 eq_refl) as [Hc Hp].
  split; [apply Hc | apply Hp]; reflexivity.
Defined.

(** C5, as the code has it.  At price zero the dividend yield raises
    [ZeroDivisionError] for both variants; at a negative price nothing
    is raised and the yield is the same quotient as for a positive
    price.  Each variant needs only the dividend attribute that it
    uses to be a number; the other attribute may be [None]. *)
Theorem dividend_yield_nonpositive_price (a : StockAttrs) (p : Q) :
  (forall d, last_dividend a = Some d ->
     (p == 0 ->
        dividend_yield (CommonTypeStock a) p = Raise ZeroDivisionError) /\
     (p < 0 -> dividend_yield (CommonTypeStock a) p = Ok (d / p))) /\
  (forall f, fixed_dividend a = Some f ->
     (p == 0 ->
        dividend_yield (PreferredTypeStock a) p
        = Raise ZeroDivisionError) /\
     (p < 0 ->
        dividend_yield (PreferredTypeStock a) p
        = Ok (f * par_value a / p))).
Proof.
  split; intros x Hx; unfold dividend_yield; rewrite Hx; simpl;
    (split; intros Hp;
     [ now apply truediv_zero
     | apply Qneg_nonzero in Hp; now apply truediv_nonzero ]).
Qed.

Lemma dividend_yield_nonpositive_price_witness :
  let ale := Stock_init "ALE" 60 (Some 23) None in
  let gin := Stock_init "GIN" 100 None (Some (2 # 100)) in
  (dividend_yield (CommonTypeStock ale) 0 = Raise ZeroDivisionError /\
   dividend_yield (CommonTypeStock ale) (-(100)) = Ok (23 / -(100))) /\
  (dividend_yield (PreferredTypeStock gin) 0 = Raise ZeroDivisionError /\
   dividend_yield (PreferredTypeStock gin) (-(100))
   = Ok ((2 # 100) * 100 / -(100))).
Proof.
  intros ale gin. split; split.
  - apply (proj1 (dividend_yield_nonpositive_price ale 0) 23 eq_refl).
    reflexivity.
  - apply (proj1 (dividend_yield_nonpositive_price ale (-(100))) 23
             eq_refl).
    reflexivity.
  - apply (proj2 (dividend_yield_nonpositive_price gin 0) (2 # 100)
             eq_refl).
    reflexivity.
  - apply (proj2 (dividend_yield_nonpositive_price gin (-(100))) (2 # 100)
             eq_refl).
    reflexivity.
Defined.

(** C5 as stated fails: at the negative price [-100] a common stock
    built without a fixed dividend and a preferred stock built without
    a last dividend both return a number. *)
Lemma dividend_yield_negative_price_returns :
  let ale := Stock_init "ALE" 60 (Some 23) None in
  let gin := Stock_init "GIN" 100 None (Some (2 # 100)) in
  dividend_yield (CommonTypeStock ale) (-(100)) = Ok (23 / -(100)) /\
  dividend_yield (PreferredTypeStock gin) (-(100))
  = Ok ((2 # 100) * 100 / -(100)) /\
  ~ (exists e, dividend_yield (CommonTypeStock ale) (-(100)) = Raise e) /\
  ~ (exists e, dividend_yield (PreferredTypeStock gin) (-(100)) = Raise e).
Proof.
  intros ale gin. repeat split; intros [e He]; discriminate He.
Qed.

(** ** P/E ratio *)

(** C6.  For every price [p > 0]: when the dividend yield is a non-zero
    number [y] the P/E ratio is [1 / y]; when the yield is zero
    [pe_ratio] raises [ZeroDivisionError]; when the yield computation
    raises, [pe_ratio] raises the same exception. *)
Theorem pe_ratio_reciprocal (self : Stock) (p : Q) :
  0 < p ->
  (forall y, dividend_yield self p = Ok y -> ~ y == 0 ->
     pe_ratio self p = Ok (1 / y)) /\
  (forall y, dividend_yield self p = Ok y -> y == 0 ->
     pe_ratio self p = Raise ZeroDivisionError) /\
  (forall e, dividend_yield self p = Raise e ->
     pe_ratio self p = Raise e).
Proof.
  intros _. unfold pe_ratio. repeat split.
  - intros y Hy Hnz. rewrite Hy. simpl. now apply truediv_nonzero.
  - intros y Hy Hz. rewrite Hy. simpl. now apply truediv_zero.
  - intros e He. now rewrite He.
Qed.

Lemma pe_ratio_reciprocal_witness :
  pe_ratio (CommonTypeStock (Stock_init "ALE" 60 (Some 23) None)) 100
  = Ok (1 / (23 / 100)) /\
  pe_ratio (CommonTypeStock (Stock_init "TEA" 100 (Some 0) None)) 100
  = Raise ZeroDivisionError /\
  pe_ratio (CommonTypeStock (Stock_init "POP" 100 None None)) 100
  = Raise TypeError.
Proof.
  split; [|split].
  - apply (proj1 (pe_ratio_reciprocal
                    (CommonTypeStock (Stock_init "ALE" 60 (Some 23) None))
                    100 eq_refl) (23 / 100) eq_refl).
    intros H. discriminate H.
  - apply (proj1 (proj2 (pe_ratio_reciprocal
                    (CommonTypeStock (Stock_init "TEA" 100 (Some 0) None))
                    100 eq_refl)) (0 / 100) eq_refl).
    reflexivity.
  - apply (proj2 (proj2 (pe_ratio_reciprocal
                    (CommonTypeStock (Stock_init "POP" 100 None None))
                    100 eq_refl)) TypeError eq_refl).
Defined.

(** ** Recording trades *)

Lemma record_trade_trades (self : StockExchange) (t : Trade) :
  trades (record_trade self t) = trades self ++ [t].
Proof. reflexivity. Qed.

Lemma record_all_trades (ts : list Trade) :
  forall self, trades (fold_left record_trade ts self) = trades self ++ ts.
Proof.
  induction ts as [|t ts IH]; intros self; simpl.
  - now rewrite app_nil_r.
  - rewrite IH, record_trade_trades, <- app_assoc. reflexivity.
Qed.

(** C7.  [record_trade] is a total function that appends: after the
    calls for the trades [ts], in that order, the log is the old log
    followed by [ts]; it has [length ts] more entries; every entry that
    was there before is still at its index; and on a new exchange the
    log is exactly [ts]. *)
Theorem record_trade_append_only (self : StockExchange) (ts : list Trade) :
  trades (fold_left record_trade ts self) = trades self ++ ts /\
  List.length (trades (fold_left record_trade ts self))
  = (List.length (trades self) + List.length ts)%nat /\
  (forall i, (i < List.length (trades self))%nat ->
     nth_error (trades (fold_left record_trade ts self)) i
     = nth_error (trades self) i) /\
  trades (fold_left record_trade ts StockExchange_init) = ts.
Proof.
  repeat split.
  - apply record_all_trades.
  - rewrite record_all_trades. apply length_app.
  - intros i Hi. rewrite record_all_trades. now apply nth_error_app1.
  - now rewrite record_all_trades.
Qed.

Lemma record_trade_append_only_witness :
  let t1 := mkTrade (CommonTypeStock (Stock_init "TEA" 100 (Some 0) None))
                    100 buy 110 0 in
  let t2 := mkTrade (CommonTypeStock (Stock_init "POP" 100 (Some 8) None))
                    200 sell 105 1 in
  nth_error (trades (fold_left record_trade [t2] (mkStockExchange [t1]))) 0
  = Some t1.
Proof.
  intros t1 t2.
  apply (proj1 (proj2 (proj2
           (record_trade_append_only (mkStockExchange [t1]) [t2]))) 0%nat).
  simpl. lia.
Defined.

(** ** Constructing trades *)

Lemma Trade_init_value (utc : nat -> Z) (s : Stock) (qty : Q)
    (side : TradeType) (p : Q) (n : nat) :
  Trade_init utc s qty side p n = (mkTrade s qty side p (utc n), S n).
Proof. reflexivity. Qed.

(** C8, as the code has it.  A trade is always stamped with the clock
    reading taken at its construction; the constructor has no timestamp
    parameter, and a call that supplies one raises [TypeError], builds
    no trade and does not read the clock. *)
Theorem Trade_timestamp_is_now (utc : nat -> Z) (s : Stock) (qty : Q)
    (side : TradeType) (p : Q) (n : nat) :
  Trade_call utc s qty side p None n
  = (Ok (mkTrade s qty side p (utc n)), S n) /\
  (forall ts, Trade_call utc s qty side p (Some ts) n
              = (Raise TypeError, n)).
Proof. split; reflexivity. Qed.

(** C8 as stated fails: a timestamp passed to the constructor is not
    stored in any trade. *)
Lemma Trade_explicit_timestamp_rejected :
  let tea := CommonTypeStock (Stock_init "TEA" 100 (Some 0) None) in
  let call := Trade_call (fun _ => 1000%Z) tea 20 buy 100 (Some 42%Z) 0%nat in
  fst call = Raise TypeError /\
  ~ (exists t, fst call = Ok t /\ timestamp t = 42%Z).
Proof.
  intros tea call. split; [reflexivity|].
  intros [t [H _]]. discriminate H.
Qed.

(** ** The side of a trade *)

Lemma same_but_side_symbol (t u : Trade) :
  same_but_side t u -> stock_symbol t = stock_symbol u.
Proof. intros [Hs _]. unfold stock_symbol. now rewrite Hs. Qed.

Lemma same_but_side_values (l1 l2 : list Trade) :
  Forall2 same_but_side l1 l2 ->
  map (fun t => price t * quantity t) l1
  = map (fun t => price t * quantity t) l2 /\
  map quantity l1 = map quantity l2.
Proof.
  induction 1 as [|t u k1 k2 Htu _ [IHv IHq]]; simpl.
  - split; reflexivity.
  - destruct Htu as [_ [Hq [Hp _]]].
    rewrite Hq, Hp, IHv, IHq. split; reflexivity.
Qed.

Lemma vwap_side (l1 l2 : list Trade) :
  Forall2 same_but_side l1 l2 -> vwap l1 = vwap l2.
Proof.
  intros H. unfold vwap.
  destruct (same_but_side_values _ _ H) as [Hv Hq].
  now rewrite Hv, Hq.
Qed.

Lemma select_trades_side (utc : nat -> Z) (sym : string) (duration : Z)
    (l1 l2 : list Trade) :
  Forall2 same_but_side l1 l2 ->
  forall n,
    Forall2 same_but_side (fst (select_trades utc sym duration l1 n))
                          (fst (select_trades utc sym duration l2 n)) /\
    snd (select_trades utc sym duration l1 n)
    = snd (select_trades utc sym duration l2 n).
Proof.
  induction 1 as [|t u k1 k2 Htu _ IH]; intros n; simpl.
  - split; [constructor | reflexivity].
  - rewrite (same_but_side_symbol _ _ Htu).
    destruct (String.eqb (stock_symbol u) (upper sym)); [|apply IH].
    assert (Hts : timestamp t = timestamp u) by apply Htu.
    rewrite Hts. specialize (IH (S n)).
    destruct (select_trades utc sym duration k1 (S n)) as [s1 m1].
    destruct (select_trades utc sym duration k2 (S n)) as [s2 m2].
    simpl in *. destruct IH as [IH1 IH2].
    destruct (utc n - timedelta_minutes duration <=? timestamp u)%Z;
      simpl; split; try assumption.
    now constructor.
Qed.

Lemma groupby_side (l1 l2 : list Trade) :
  Forall2 same_but_side l1 l2 ->
  Forall2 (fun g1 g2 => fst g1 = fst g2 /\
                        Forall2 same_but_side (snd g1) (snd g2))
          (groupby stock_symbol l1) (groupby stock_symbol l2).
Proof.
  induction 1 as [|t u k1 k2 Htu _ IH]; simpl; [constructor|].
  rewrite (same_but_side_symbol _ _ Htu).
  destruct (groupby stock_symbol k1) as [|[s1 g1] r1];
    destruct (groupby stock_symbol k2) as [|[s2 g2] r2];
    inversion IH as [|x1 x2 y1 y2 [Hs Hg] Hr]; subst.
  - constructor; [|constructor]. simpl. split; [reflexivity|].
    constructor; [assumption|constructor].
  - simpl in Hs, Hg. subst s2.
    destruct (String.eqb (stock_symbol u) s1).
    + constructor; [|assumption]. simpl. split; [reflexivity|].
      constructor; assumption.
    + constructor; [|constructor; [|assumption]]; simpl.
      * split; [reflexivity|]. constructor; [assumption|constructor].
      * split; [reflexivity|assumption].
Qed.

Lemma map_result_Forall2 {A B C : Type} (R : A -> B -> Prop)
    (f : A -> result C) (g : B -> result C) (l1 : list A) (l2 : list B) :
  (forall a b, R a b -> f a = g b) ->
  Forall2 R l1 l2 -> map_result f l1 = map_result g l2.
Proof.
  intros Hfg. induction 1 as [|a b k1 k2 Hab _ IH]; simpl.
  - reflexivity.
  - now rewrite (Hfg _ _ Hab), IH.
Qed.

Lemma stock_prices_side (l1 l2 : list Trade) :
  Forall2 same_but_side l1 l2 ->
  stock_prices (mkStockExchange l1) = stock_prices (mkStockExchange l2).
Proof.
  intros H. unfold stock_prices. simpl.
  apply map_result_Forall2 with (2 := groupby_side _ _ H).
  intros g1 g2 [_ Hg]. now apply vwap_side.
Qed.

(** C9.  The side of a trade affects no analytic result: on two logs
    that are equal except for the [trade_type] of their trades, [vwap],
    [volume_weight_stock_price] (for every symbol, duration and clock)
    and [all_share_index] give the same result or raise the same
    exception. *)
Theorem trade_side_irrelevant (utc : nat -> Z) (power : Q -> Q -> Q)
    (l1 l2 : list Trade) (sym : string) (duration : Z) (n : nat) :
  Forall2 same_but_side l1 l2 ->
  vwap l1 = vwap l2 /\
  volume_weight_stock_price utc (mkStockExchange l1) sym duration n
  = volume_weight_stock_price utc (mkStockExchange l2) sym duration n /\
  all_share_index power (mkStockExchange l1)
  = all_share_index power (mkStockExchange l2).
Proof.
  intros H. split; [now apply vwap_side|]. split.
  - unfold volume_weight_stock_price. simpl.
    destruct (select_trades_side utc sym duration _ _ H n) as [Hs Hn].
    destruct (select_trades utc sym duration l1 n) as [s1 m1].
    destruct (select_trades utc sym duration l2 n) as [s2 m2].
    simpl in Hs, Hn. subst m2.
    pose proof (vwap_side _ _ Hs) as Hv.
    inversion Hs; subst; [reflexivity|]. now rewrite Hv.
  - unfold all_share_index. rewrite (stock_prices_side _ _ H). simpl.
    inversion H; reflexivity.
Qed.

Lemma trade_side_irrelevant_witness :
  let pop := CommonTypeStock (Stock_init "POP" 100 (Some 8) None) in
  let bought := [mkTrade pop 15 buy 100 0; mkTrade pop 25 buy 60 0] in
  let sold := [mkTrade pop 15 sell 100 0; mkTrade pop 25 buy 60 0] in
  vwap bought = vwap sold /\
  volume_weight_stock_price (fun _ => 0%Z) (mkStockExchange bought)
    "pop" 5 0%nat
  = volume_weight_stock_price (fun _ => 0%Z) (mkStockExchange sold)
    "pop" 5 0%nat /\
  all_share_index (fun b _ => b) (mkStockExchange bought)
  = all_share_index (fun b _ => b) (mkStockExchange sold).
Proof.
  intros pop bought sold.
  apply (trade_side_irrelevant (fun _ => 0%Z) (fun b _ => b) bought sold
           "pop" 5 0%nat).
  repeat constructor.
Defined.

(** ** Upper-casing and case-insensitive comparison *)

Lemma all_ascii_complete (c : ascii) : In c all_ascii.
Proof.
  unfold all_ascii. rewrite <- (ascii_nat_embedding c).
  apply in_map, in_seq. pose proof (nat_ascii_bounded c). lia.
Qed.

Lemma same_letter_upper (c d : ascii) :
  same_letter c d = Ascii.eqb (ascii_upper c) (ascii_upper d).
Proof.
  assert (H : forallb (fun x => forallb (fun y =>
                Bool.eqb (same_letter x y)
                         (Ascii.eqb (ascii_upper x) (ascii_upper y)))
              all_ascii) all_ascii = true)
    by (vm_compute; reflexivity).
  rewrite forallb_forall in H.
  specialize (H c (all_ascii_complete c)).
  rewrite forallb_forall in H.
  apply eqb_prop, H, all_ascii_complete.
Qed.

Lemma ascii_upper_idempotent (c : ascii) :
  ascii_upper (ascii_upper c) = ascii_upper c.
Proof.
  assert (H : forallb (fun x =>
                Ascii.eqb (ascii_upper (ascii_upper x)) (ascii_upper x))
              all_ascii = true)
    by (vm_compute; reflexivity).
  rewrite forallb_forall in H.
  apply Ascii.eqb_eq, H, all_ascii_complete.
Qed.

Lemma upper_idempotent (s : string) : upper (upper s) = upper s.
Proof.
  induction s as [|c s IH]; simpl; [reflexivity|].
  now rewrite ascii_upper_idempotent, IH.
Qed.

Lemma caseless_eqb_upper (a : string) :
  forall b, caseless_eqb a b = String.eqb (upper a) (upper b).
Proof.
  induction a as [|c a IH]; intros [|d b]; simpl; try reflexivity.
  rewrite same_letter_upper, IH.
  now destruct (Ascii.eqb (ascii_upper c) (ascii_upper d)).
Qed.

(** Every stock built by the constructor is normalized. *)
Lemma Stock_init_normalized (sym : string) (par : Q)
    (last fixed : option Q) :
  normalized (CommonTypeStock (Stock_init sym par last fixed)) /\
  normalized (PreferredTypeStock (Stock_init sym par last fixed)).
Proof. split; apply upper_idempotent. Qed.

(** On a normalized stock the test of the code is the case-insensitive
    comparison. *)
Lemma symbol_test_caseless (t : Trade) (sym : string) :
  normalized (stock t) ->
  String.eqb (stock_symbol t) (upper sym)
  = caseless_eqb (stock_symbol t) sym.
Proof.
  intros Hn. rewrite caseless_eqb_upper. unfold stock_symbol.
  now rewrite Hn.
Qed.

Example caseless_examples :
  caseless_eqb "PoP" "pOp" = true /\ caseless_eqb "P@P" "p`p" = false /\
  caseless_eqb "POP" "POPS" = false.
Proof. repeat split. Qed.

(** ** The windowed volume-weighted price *)

(** While the clock stands at [now], the comprehension is a filter: the
    symbol test and the lower bound of the window, nothing else. *)
Lemma select_trades_constant_clock (utc : nat -> Z) (sym : string)
    (duration now : Z) (l : list Trade) :
  forall n,
    (forall k, (n <= k < n + List.length l)%nat -> utc k = now) ->
    fst (select_trades utc sym duration l n)
    = filter (fun t => String.eqb (stock_symbol t) (upper sym)
                       && (now - timedelta_minutes duration
                           <=? timestamp t)%Z) l.
Proof.
  induction l as [|t l IH]; intros n Hclock; simpl; [reflexivity|].
  destruct (String.eqb (stock_symbol t) (upper sym)); simpl.
  - rewrite (Hclock n) by (simpl; lia).
    rewrite <- (IH (S n)) by (intros k Hk; apply Hclock; simpl; lia).
    destruct (select_trades utc sym duration l (S n)) as [sel m].
    now destruct (now - timedelta_minutes duration <=? timestamp t)%Z.
  - apply IH. intros k Hk. apply Hclock. simpl. lia.
Qed.

(** On normalized stocks stamped no later than [now], that filter
    selects the trades of the symbol inside the closed window. *)
Lemma filter_window_trades (sym : string) (duration now : Z)
    (l : list Trade) :
  Forall (fun t => normalized (stock t)) l ->
  Forall (fun t => (timestamp t <= now)%Z) l ->
  filter (fun t => String.eqb (stock_symbol t) (upper sym)
                   && (now - timedelta_minutes duration
                       <=? timestamp t)%Z) l
  = window_trades sym now duration l.
Proof.
  intros Hn Ht. unfold window_trades. apply filter_ext_in.
  intros t Hin. rewrite Forall_forall in Hn, Ht.
  rewrite (symbol_test_caseless t sym (Hn t Hin)). unfold in_window.
  specialize (Ht t Hin). apply Z.leb_le in Ht. rewrite Ht.
  now rewrite andb_true_r.
Qed.

Lemma vwap_cases (ts : list Trade) :
  vwap ts = if Qeq_bool (total_quantity ts) 0
            then Raise ZeroDivisionError
            else Ok (weighted_average ts).
Proof. reflexivity. Qed.

(** C2, as the code has it.  Take a log of trades on normalized stocks,
    none stamped later than [now], and a query during which the clock
    reads [now].  Let [sel] be the trades that match the symbol
    case-insensitively with a timestamp in [[now - duration, now]].
    The query returns [None] when [sel] is empty; otherwise it returns
    the sum of price times quantity over [sel] divided by the sum of
    quantity over [sel] when that sum is not zero, and raises
    [ZeroDivisionError] when it is zero. *)
Theorem volume_weight_stock_price_window (utc : nat -> Z)
    (self : StockExchange) (sym : string) (duration now : Z) (n : nat) :
  Forall (fun t => normalized (stock t)) (trades self) ->
  Forall (fun t => (timestamp t <= now)%Z) (trades self) ->
  (forall k, (n <= k < n + List.length (trades self))%nat -> utc k = now) ->
  let sel := window_trades sym now duration (trades self) in
  fst (volume_weight_stock_price utc self sym duration n)
  = match sel with
    | [] => Ok None
    | _ :: _ =>
        if Qeq_bool (total_quantity sel) 0 then Raise ZeroDivisionError
        else Ok (Some (weighted_average sel))
    end.
Proof.
  intros Hn Ht Hclock sel. unfold volume_weight_stock_price.
  pose proof (select_trades_constant_clock utc sym duration now
                (trades self) n Hclock) as Hsel.
  rewrite (filter_window_trades sym duration now _ Hn Ht) in Hsel.
  fold sel in Hsel.
  destruct (select_trades utc sym duration (trades self) n) as [s m].
  simpl in Hsel. subst s. simpl.
  destruct sel as [|t sel']; [reflexivity|].
  rewrite vwap_cases.
  now destruct (Qeq_bool (total_quantity (t :: sel')) 0).
Qed.

Example test_volume_weight_stock_price :
  let pop := CommonTypeStock (Stock_init "POP" 100 (Some 8) None) in
  let log := [mkTrade pop 15 buy 100 0; mkTrade pop 25 buy 60 1] in
  exists v,
    fst (volume_weight_stock_price (fun k => Z.of_nat k)
           (mkStockExchange log) "POP" 5 2%nat) = Ok (Some v)
    /\ v == 75.
Proof. eexists. split; reflexivity. Qed.

(** The code tests no upper bound: a trade stamped after the reading
    of the clock is selected. *)
Example select_trades_later_stamp :
  let pop := CommonTypeStock (Stock_init "POP" 100 (Some 8) None) in
  let t := mkTrade pop 15 buy 100 900000000 in
  fst (select_trades (fun _ => 600000000%Z) "POP" 5 [t] 0%nat) = [t] /\
  window_trades "POP" 600000000 5 [t] = [].
Proof. split; reflexivity. Qed.

(** The clock is read once per trade of the symbol: when it advances
    during the query, the lower bound moves with it. *)
Example select_trades_moving_clock :
  let pop := CommonTypeStock (Stock_init "POP" 100 (Some 8) None) in
  let t1 := mkTrade pop 15 buy 100 0 in
  let t2 := mkTrade pop 25 buy 60 0 in
  let utc := fun k => (300000000 + Z.of_nat k)%Z in
  select_trades utc "POP" 5 [t1; t2] 0%nat = ([t1], 2%nat).
Proof. reflexivity. Qed.

Lemma volume_weight_stock_price_window_witness :
  let pop := CommonTypeStock (Stock_init "pop" 100 (Some 8) None) in
  let tea := CommonTypeStock (Stock_init "TEA" 100 (Some 0) None) in
  let t1 := mkTrade pop 10 buy 500 0 in
  let t2 := mkTrade pop 15 buy 100 400000000 in
  let t3 := mkTrade tea 30 sell 70 500000000 in
  let t4 := mkTrade pop 25 sell 60 600000000 in
  fst (volume_weight_stock_price (fun _ => 600000000%Z)
         (mkStockExchange [t1; t2; t3; t4]) "Pop" 5 0%nat)
  = Ok (Some (weighted_average [t2; t4])).
Proof.
  intros pop tea t1 t2 t3 t4.
  apply (volume_weight_stock_price_window (fun _ => 600000000%Z)
           (mkStockExchange [t1; t2; t3; t4]) "Pop" 5 600000000 0%nat).
  - repeat constructor.
  - repeat constructor; simpl; lia.
  - intros k _. reflexivity.
Defined.

(** C2 as stated fails: the only trade matches the query and lies in
    the window, its quantity is zero, and the query raises instead of
    returning the quotient. *)
Lemma volume_weight_stock_price_zero_quantity :
  let pop := CommonTypeStock (Stock_init "POP" 100 (Some 8) None) in
  let log := [mkTrade pop 0 buy 100 0] in
  let query := volume_weight_stock_price (fun _ => 0%Z)
                 (mkStockExchange log) "POP" 5 0%nat in
  window_trades "POP" 0 5 log = log /\
  fst query = Raise ZeroDivisionError /\
  fst query <> Ok (Some (weighted_average (window_trades "POP" 0 5 log))).
Proof.
  intros pop log query. repeat split. intros H. discriminate H.
Qed.

(** ** Logs built through the constructor *)

Lemma stamped_before_weaken (utc : nat -> Z) (n m : nat) (t : Trade) :
  (n <= m)%nat -> stamped_before utc n t -> stamped_before utc m t.
Proof. intros Hnm [i [Hi Ht]]. exists i. split; [lia|assumption]. Qed.

(** A session keeps every trade of the log stamped by an earlier
    reading, and reads the clock once per trade. *)
Lemma trade_session_stamped (utc : nat -> Z)
    (orders : list (Stock * Q * TradeType * Q)) :
  forall self n,
    Forall (stamped_before utc n) (trades self) ->
    snd (trade_session utc orders self n) = (n + List.length orders)%nat /\
    Forall (stamped_before utc (n + List.length orders))
           (trades (fst (trade_session utc orders self n))).
Proof.
  induction orders as [|[[[s qty] side] p] orders IH]; intros self n Hinv.
  - simpl. rewrite Nat.add_0_r. split; [reflexivity|assumption].
  - simpl. replace (n + S (List.length orders))%nat
      with (S n + List.length orders)%nat by lia.
    apply IH. apply Forall_app. split.
    + apply Forall_impl with (2 := Hinv). intros t.
      apply stamped_before_weaken. lia.
    + constructor; [|constructor]. exists n. split; [lia|reflexivity].
Qed.

(** Under a clock that never goes back, no trade of a session is
    stamped later than a reading taken after the session. *)
Lemma trade_session_not_after (utc : nat -> Z)
    (orders : list (Stock * Q * TradeType * Q)) (n k : nat) :
  (forall i j, (i <= j)%nat -> (utc i <= utc j)%Z) ->
  (n + List.length orders <= k)%nat ->
  Forall (fun t => (timestamp t <= utc k)%Z)
         (trades (fst (trade_session utc orders StockExchange_init n))).
Proof.
  intros Hmono Hk.
  destruct (trade_session_stamped utc orders StockExchange_init n)
    as [_ H]; [constructor|].
  apply Forall_impl with (2 := H). intros t [i [Hi Ht]].
  rewrite Ht. apply Hmono. lia.
Qed.

(** ** Zero total quantity *)

(** C10.  The constructor accepts the quantity zero, so the log that
    holds one such trade is reachable.  On a log of trades on
    normalized stocks, none stamped later than [now], queried while the
    clock reads [now]: whenever the trades that match the symbol
    case-insensitively with a timestamp in [[now - duration, now]] are
    not empty and their total quantity is zero, the query raises
    [ZeroDivisionError], whatever the trades of the other symbols and
    the trades outside the window are.  In particular the query for the
    symbol of that one trade, with the trade not older than the window,
    raises it. *)
Theorem volume_weight_stock_price_zero_total (utc : nat -> Z) :
  (forall self sym duration now n,
     Forall (fun t => normalized (stock t)) (trades self) ->
     Forall (fun t => (timestamp t <= now)%Z) (trades self) ->
     (forall k, (n <= k < n + List.length (trades self))%nat ->
                utc k = now) ->
     let sel := window_trades sym now duration (trades self) in
     sel <> [] -> total_quantity sel == 0 ->
     fst (volume_weight_stock_price utc self sym duration n)
     = Raise ZeroDivisionError) /\
  (forall s side p duration n,
     normalized s ->
     (utc (S n) - timedelta_minutes duration <= utc n)%Z ->
     let t := mkTrade s 0 side p (utc n) in
     Trade_call utc s 0 side p None n = (Ok t, S n) /\
     trade_session utc [(s, 0, side, p)] StockExchange_init n
     = (mkStockExchange [t], S n) /\
     fst (volume_weight_stock_price utc (mkStockExchange [t])
            (symbol (attrs s)) duration (S n))
     = Raise ZeroDivisionError).
Proof.
  split.
  - intros self sym duration now n Hn Ht Hclock sel Hne Hz.
    unfold volume_weight_stock_price.
    pose proof (select_trades_constant_clock utc sym duration now
                  (trades self) n Hclock) as Hsel.
    rewrite (filter_window_trades sym duration now _ Hn Ht) in Hsel.
    fold sel in Hsel.
    destruct (select_trades utc sym duration (trades self) n) as [s m].
    simpl in Hsel. subst s. simpl.
    destruct sel as [|t sel']; [contradiction|].
    rewrite vwap_cases. now rewrite (Qeq_eq_bool _ _ Hz).
  - intros s side p duration n Hn Hw t.
    split; [reflexivity|]. split; [reflexivity|].
    unfold volume_weight_stock_price. simpl.
    unfold stock_symbol. simpl. rewrite Hn, String.eqb_refl.
    apply Z.leb_le in Hw. now rewrite Hw.
Qed.

Lemma volume_weight_stock_price_zero_total_witness :
  let pop := CommonTypeStock (Stock_init "pop" 100 (Some 8) None) in
  let tea := CommonTypeStock (Stock_init "TEA" 100 (Some 0) None) in
  let log := [mkTrade pop 7 buy 50 0;
              mkTrade pop 0 buy 100 400000000;
              mkTrade tea 5 sell 70 500000000;
              mkTrade pop 4 buy 60 550000000;
              mkTrade pop (-(4)) sell 90 600000000] in
  fst (volume_weight_stock_price (fun _ => 600000000%Z)
         (mkStockExchange log) "Pop" 5 0%nat)
  = Raise ZeroDivisionError /\
  fst (volume_weight_stock_price (fun k => Z.of_nat k)
         (mkStockExchange [mkTrade tea 0 buy 110 3])
         "TEA" 15 4%nat)
  = Raise ZeroDivisionError.
Proof.
  intros pop tea log. split.
  - apply (proj1 (volume_weight_stock_price_zero_total
                    (fun _ => 600000000%Z))
             (mkStockExchange log) "Pop"%string 5%Z 600000000%Z 0%nat).
    + repeat constructor.
    + repeat constructor; simpl; lia.
    + intros k _. reflexivity.
    + simpl. discriminate.
    + reflexivity.
  - apply (proj2 (volume_weight_stock_price_zero_total
                    (fun k => Z.of_nat k))
             tea buy 110 15%Z 3%nat).
    + reflexivity.
    + simpl. lia.
Defined.

(** ** Grouping *)

Lemma In_distinct (y : string) (l : list string) :
  In y (distinct l) <-> In y l.
Proof.
  induction l as [|x xs IH]; simpl; [tauto|].
  rewrite filter_In, IH. split.
  - tauto.
  - intros [H|H]; [now left|].
    destruct (String.eqb_spec y x) as [E|E]; [left; now symmetry|].
    right. split; [assumption|reflexivity].
Qed.

Lemma filter_absent (k : string) (l : list string) :
  ~ In k l -> filter (fun y => negb (String.eqb y k)) l = l.
Proof.
  induction l as [|x xs IH]; simpl; intros H; [reflexivity|].
  destruct (String.eqb_spec x k) as [E|E]; simpl.
  - exfalso. apply H. now left.
  - rewrite IH; [reflexivity|]. intros Hin. apply H. now right.
Qed.

Section GroupBy.

Context {A : Type} (key : A -> string).

Lemma groupby_head (x : A) (xs : list A) :
  exists g rest, groupby key (x :: xs) = (key x, x :: g) :: rest.
Proof.
  simpl. destruct (groupby key xs) as [|[k g] rest].
  - now exists [], [].
  - destruct (String.eqb_spec (key x) k) as [E|E].
    + subst k. now exists g, rest.
    + now exists [], ((k, g) :: rest).
Qed.

Lemma groupby_concat (l : list A) :
  List.concat (map snd (groupby key l)) = l.
Proof.
  induction l as [|x xs IH]; simpl; [reflexivity|].
  destruct (groupby key xs) as [|[k g] rest]; simpl in *.
  - now rewrite <- IH.
  - destruct (String.eqb (key x) k); simpl; now rewrite <- IH.
Qed.

Lemma groupby_runs (l : list A) : Forall (run key) (groupby key l).
Proof.
  induction l as [|x xs IH]; simpl; [constructor|].
  destruct (groupby key xs) as [|[k g] rest].
  - repeat constructor. discriminate.
  - inversion IH as [|? ? [Hne Hk] Hrest]; subst.
    destruct (String.eqb_spec (key x) k) as [E|E].
    + constructor; [|assumption]. split; [discriminate|].
      constructor; assumption.
    + constructor; [|assumption]. split; [discriminate|].
      repeat constructor.
Qed.

Lemma groupby_keys (k : string) (l : list A) :
  In k (map fst (groupby key l)) -> In k (map key l).
Proof.
  intros H. apply in_map_iff in H. destruct H as [[k' g] [E Hin]].
  simpl in E. subst k'.
  pose proof (groupby_runs l) as Hr. rewrite Forall_forall in Hr.
  destruct (Hr _ Hin) as [Hne Hk]. simpl in *.
  destruct g as [|x g]; [contradiction|].
  inversion Hk; subst. apply in_map.
  rewrite <- (groupby_concat l). apply in_concat.
  exists (x :: g). split; [|now left].
  apply in_map_iff. now exists (key x, x :: g).
Qed.

Lemma filter_run (k : string) (g : list A) :
  Forall (fun x => key x = k) g ->
  filter (fun x => String.eqb (key x) k) g = g.
Proof.
  induction 1 as [|x g Hx _ IH]; simpl; [reflexivity|].
  now rewrite Hx, String.eqb_refl, IH.
Qed.

Lemma filter_other_run (k s : string) (g : list A) :
  Forall (fun x => key x = k) g -> s <> k ->
  filter (fun x => String.eqb (key x) s) g = [].
Proof.
  intros H Hs. induction H as [|x g Hx _ IH]; simpl; [reflexivity|].
  rewrite Hx. destruct (String.eqb_spec k s) as [E|E]; [|assumption].
  now symmetry in E.
Qed.

Lemma filter_absent_key (k : string) (l : list A) :
  ~ In k (map key l) ->
  filter (fun x => String.eqb (key x) k) l = [].
Proof.
  induction l as [|x xs IH]; simpl; intros H; [reflexivity|].
  destruct (String.eqb_spec (key x) k) as [E|E].
  - exfalso. apply H. now left.
  - apply IH. intros Hin. apply H. now right.
Qed.

Lemma distinct_run (k : string) (g l : list A) :
  Forall (fun x => key x = k) g -> g <> [] ->
  ~ In k (map key l) ->
  distinct (map key (g ++ l)) = k :: distinct (map key l).
Proof.
  intros Hg Hne Hk.
  assert (Hd : ~ In k (distinct (map key l)))
    by now rewrite In_distinct.
  induction Hg as [|x g Hx Hg IH]; [contradiction|].
  simpl. rewrite Hx. f_equal.
  destruct g as [|y g].
  - simpl. now apply filter_absent.
  - rewrite IH by discriminate. simpl.
    rewrite String.eqb_refl. simpl. now apply filter_absent.
Qed.

(** Runs with pairwise different keys are the groups of a
    group-by. *)
Lemma runs_group_by (G : list (string * list A)) :
  Forall (run key) G -> NoDup (map fst G) ->
  let l := List.concat (map snd G) in
  map (fun s => (s, filter (fun x => String.eqb (key x) s) l))
      (distinct (map key l)) = G.
Proof.
  induction 1 as [|[k g] G [Hne Hk] HG IH]; simpl; [reflexivity|].
  intros Hnd. inversion Hnd as [|? ? Hnotin Hnd']; subst.
  specialize (IH Hnd'). simpl in IH, Hne, Hk.
  assert (Hkl : ~ In k (map key (List.concat (map snd G)))).
  { intros Hin. apply Hnotin. clear - Hin HG.
    induction HG as [|[k' g'] G [Hne' Hk'] _ IHG]; simpl in *;
      [contradiction|].
    rewrite map_app, in_app_iff in Hin. destruct Hin as [Hin|Hin].
    - left. apply in_map_iff in Hin. destruct Hin as [x [Ex Hx]].
      rewrite Forall_forall in Hk'. now rewrite <- (Hk' x Hx).
    - right. now apply IHG. }
  rewrite (distinct_run k g _ Hk Hne Hkl). simpl.
  rewrite filter_app, (filter_run k g Hk), (filter_absent_key k _ Hkl),
    app_nil_r.
  f_equal. rewrite <- IH at 2. apply map_ext_in. intros s Hs.
  rewrite filter_app, (filter_other_run k s g Hk); [reflexivity|].
  intros E. subst s. apply Hkl. now apply In_distinct.
Qed.

End GroupBy.

Lemma groupby_cons {A : Type} (key : A -> string) (x : A) (xs : list A) :
  groupby key (x :: xs)
  = match groupby key xs with
    | (k, g) :: rest =>
        if String.eqb (key x) k then (k, x :: g) :: rest
        else (key x, [x]) :: (k, g) :: rest
    | [] => [(key x, [x])]
    end.
Proof. reflexivity. Qed.

(** In a log whose symbols are adjacent, the runs have pairwise
    different symbols. *)
Lemma symbols_adjacent_NoDup (l : list Trade) :
  symbols_adjacent l -> NoDup (map fst (groupby stock_symbol l)).
Proof.
  induction l as [|x xs IH]; [constructor|].
  intros [Hx Hxs]. specialize (IH Hxs). rewrite groupby_cons.
  destruct xs as [|y ys]; [repeat constructor; intros []|].
  destruct (groupby_head stock_symbol y ys) as [g [rest E]].
  rewrite E in *.
  destruct (String.eqb_spec (stock_symbol x) (stock_symbol y)) as [Exy|Exy].
  - exact IH.
  - rewrite map_cons. constructor; [|exact IH].
    intros Hin. apply Hx. rewrite <- E in Hin. cbn [fst] in Hin.
    apply groupby_keys in Hin. simpl drop_run.
    destruct (String.eqb_spec (stock_symbol y) (stock_symbol x)) as [Eyx|_];
      [now symmetry in Eyx|exact Hin].
Qed.

(** In a log whose symbols are adjacent, the runs are the groups of the
    group-by on the symbol. *)
Lemma groupby_group_by_symbol (l : list Trade) :
  symbols_adjacent l -> groupby stock_symbol l = group_by_symbol l.
Proof.
  intros H. symmetry.
  pose proof (runs_group_by stock_symbol (groupby stock_symbol l)
                (groupby_runs stock_symbol l)
                (symbols_adjacent_NoDup l H)) as HG.
  simpl in HG. rewrite groupby_concat in HG. exact HG.
Qed.

Lemma map_result_vwap (G : list (string * list Trade)) :
  Forall (fun g => ~ total_quantity (snd g) == 0) G ->
  map_result (fun g => vwap (snd g)) G
  = Ok (map (fun g => weighted_average (snd g)) G).
Proof.
  induction 1 as [|g G Hg _ IH]; simpl; [reflexivity|].
  unfold vwap at 1. rewrite (truediv_nonzero _ _ Hg). simpl.
  now rewrite IH.
Qed.

Lemma Qmult_1_l_eq (x : Q) : 1 * x = x.
Proof.
  destruct x as [a b]. unfold Qmult. simpl Qnum. simpl Qden.
  now rewrite Z.mul_1_l.
Qed.

Lemma reduce_product (l : list Q) :
  l <> [] -> reduce Qmult l = Ok (product_of l).
Proof.
  destruct l as [|x xs]; [contradiction|]. intros _.
  unfold reduce, product_of. simpl. now rewrite Qmult_1_l_eq.
Qed.

Lemma truediv_count (n : nat) :
  n <> 0%nat ->
  truediv 1 (inject_Z (Z.of_nat n)) = Ok (1 / inject_Z (Z.of_nat n)).
Proof.
  intros Hn. apply truediv_nonzero. intros H.
  unfold Qeq, inject_Z in H. simpl in H. lia.
Qed.

(** ** The all-share index *)

Example test_all_share_index :
  let mk := fun sym qty p =>
    mkTrade (CommonTypeStock (Stock_init sym 100 (Some 0) None))
            qty buy p 0 in
  let log := [mk "TEA" 15 100; mk "POP" 25 10; mk "POP" 25 60;
              mk "GIN" 25 110; mk "JOE" 25 250]%string in
  exists prices,
    stock_prices (mkStockExchange log) = Ok prices /\
    Forall2 Qeq prices [100; 35; 110; 250].
Proof. eexists. split; [reflexivity|]. repeat constructor. Qed.

Lemma map_result_vwap_raises (G : list (string * list Trade)) :
  Exists (fun g => total_quantity (snd g) == 0) G ->
  map_result (fun g => vwap (snd g)) G = Raise ZeroDivisionError.
Proof.
  induction 1 as [g G Hg|g G _ IH]; simpl; rewrite vwap_cases.
  - now rewrite (Qeq_eq_bool _ _ Hg).
  - destruct (Qeq_bool (total_quantity (snd g)) 0); [reflexivity|].
    simpl. now rewrite IH.
Qed.

(** C1 fails on the code.  In the log POP, TEA, POP the trades of POP
    are not adjacent: [all_share_index] makes three groups, two of them
    for POP, prices POP on each of its trades alone (10 and 30) and
    takes the cube root of [10 * 20 * 30]; grouping by symbol gives two
    groups, the price 20 for POP over both of its trades, and the square
    root of [20 * 20]. *)
Theorem all_share_index_splits_interleaved_symbol (power : Q -> Q -> Q) :
  let pop := CommonTypeStock (Stock_init "POP" 100 (Some 8) None) in
  let tea := CommonTypeStock (Stock_init "TEA" 100 (Some 0) None) in
  let log := [mkTrade pop 1 buy 10 0; mkTrade tea 1 buy 20 1;
              mkTrade pop 1 sell 30 2] in
  map fst (groupby stock_symbol log) = ["POP"; "TEA"; "POP"]%string /\
  stock_prices (mkStockExchange log) = Ok [10; 20; 30] /\
  all_share_index power (mkStockExchange log)
  = Ok (Some (power 6000 (1 # 3))) /\
  map fst (group_by_symbol log) = ["POP"; "TEA"]%string /\
  map (fun g => weighted_average (snd g)) (group_by_symbol log)
  = [40 # 2; 20] /\
  geometric_mean_index power log = power (800 # 2) (1 # 2).
Proof. intros pop tea log. repeat split. Qed.

(** C3, as the code has it.  [all_share_index] returns [None] on the
    empty log.  On a non-empty log in which the trades of every symbol
    are adjacent, it returns the product of the per-symbol
    volume-weighted prices raised to the power [1 / n], [n] the number
    of distinct symbols, when no symbol has total quantity zero, and
    raises [ZeroDivisionError] when some symbol has. *)
Theorem all_share_index_geometric_mean (power : Q -> Q -> Q)
    (self : StockExchange) :
  (trades self = [] -> all_share_index power self = Ok None) /\
  (trades self <> [] -> symbols_adjacent (trades self) ->
   Forall (fun g => ~ total_quantity (snd g) == 0)
          (group_by_symbol (trades self)) ->
   all_share_index power self
   = Ok (Some (geometric_mean_index power (trades self)))) /\
  (trades self <> [] -> symbols_adjacent (trades self) ->
   Exists (fun g => total_quantity (snd g) == 0)
          (group_by_symbol (trades self)) ->
   all_share_index power self = Raise ZeroDivisionError).
Proof.
  unfold all_share_index, stock_prices. split; [|split].
  - intros E. now rewrite E.
  - intros Hne Hadj Hq.
    rewrite (groupby_group_by_symbol _ Hadj), (map_result_vwap _ Hq).
    destruct (trades self) as [|t l] eqn:E; [contradiction|].
    rewrite <- E. simpl bind.
    assert (Hlen : List.length
                     (map (fun g => weighted_average (snd g))
                          (group_by_symbol (trades self)))
                   = List.length (traded_symbols (trades self))).
    { unfold group_by_symbol. now rewrite !length_map. }
    assert (Hpos : List.length (traded_symbols (trades self)) <> 0%nat).
    { rewrite E. discriminate. }
    rewrite reduce_product.
    + simpl bind. rewrite Hlen, (truediv_count _ Hpos). reflexivity.
    + intros Hnil. apply Hpos. rewrite <- Hlen, Hnil. reflexivity.
  - intros Hne Hadj Hq.
    rewrite (groupby_group_by_symbol _ Hadj), (map_result_vwap_raises _ Hq).
    destruct (trades self); [contradiction|reflexivity].
Qed.

Lemma all_share_index_geometric_mean_witness :
  let power := fun b e : Q => b * e in
  let mk := fun sym qty p =>
    mkTrade (CommonTypeStock (Stock_init sym 100 (Some 0) None))
            qty buy p 0 in
  let log := [mk "TEA" 15 100; mk "POP" 25 10; mk "POP" 25 60;
              mk "GIN" 25 110; mk "JOE" 25 250]%string in
  let void := [mk "TEA" 15 100; mk "POP" 25 10; mk "POP" (-(25)) 60]%string in
  all_share_index power StockExchange_init = Ok None /\
  all_share_index power (mkStockExchange log)
  = Ok (Some (geometric_mean_index power log)) /\
  all_share_index power (mkStockExchange void) = Raise ZeroDivisionError.
Proof.
  intros power mk log void. split; [|split].
  - apply (proj1 (all_share_index_geometric_mean power StockExchange_init)).
    reflexivity.
  - apply (proj1 (proj2 (all_share_index_geometric_mean power
                           (mkStockExchange log)))).
    + discriminate.
    + simpl. intuition discriminate.
    + repeat constructor; intros H; discriminate H.
  - apply (proj2 (proj2 (all_share_index_geometric_mean power
                           (mkStockExchange void)))).
    + discriminate.
    + simpl. intuition discriminate.
    + apply Exists_cons_tl, Exists_cons_hd. reflexivity.
Defined.

(** C3 as stated fails: on the non-empty log that holds one trade of
    quantity zero, pricing the symbol raises, and so does the index
    whatever the power operator is. *)
Lemma all_share_index_zero_quantity :
  let tea := CommonTypeStock (Stock_init "TEA" 100 (Some 0) None) in
  let self := mkStockExchange [mkTrade tea 0 buy 110 0] in
  trades self <> [] /\
  stock_prices self = Raise ZeroDivisionError /\
  (forall power, all_share_index power self = Raise ZeroDivisionError).
Proof.
  intros tea self. split; [discriminate|]. split; reflexivity.
Qed.

(** * Further properties *)

(** ** The constructor of stocks *)

Lemma ascii_upper_not_lower (c : ascii) :
  is_lower_letter (ascii_upper c) = false.
Proof.
  assert (H : forallb (fun x => negb (is_lower_letter (ascii_upper x)))
                      all_ascii = true)
    by (vm_compute; reflexivity).
  rewrite forallb_forall in H.
  apply negb_true_iff, H, all_ascii_complete.
Qed.

Lemma upper_length (s : string) : String.length (upper s) = String.length s.
Proof. induction s as [|c s IH]; simpl; [reflexivity|now rewrite IH]. Qed.

Lemma upper_no_lower (s : string) (c : ascii) :
  In c (list_ascii_of_string (upper s)) -> is_lower_letter c = false.
Proof.
  induction s as [|d s IH]; simpl; [intros []|].
  intros [E|Hin]; [subst c; apply ascii_upper_not_lower|now apply IH].
Qed.

Lemma ascii_upper_ascii (c : ascii) :
  (N_of_ascii c <? 128)%N = true ->
  (N_of_ascii (ascii_upper c) <? 128)%N = true.
Proof.
  assert (H : forallb (fun x => implb (N_of_ascii x <? 128)%N
                                      (N_of_ascii (ascii_upper x) <? 128)%N)
                      all_ascii = true)
    by (vm_compute; reflexivity).
  rewrite forallb_forall in H. specialize (H c (all_ascii_complete c)).
  intros Hc. now rewrite Hc in H.
Qed.

Lemma upper_ascii_only (s : string) :
  ascii_only s = true -> ascii_only (upper s) = true.
Proof.
  induction s as [|c s IH]; simpl; [reflexivity|].
  rewrite !andb_true_iff. intros [Hc Hs].
  split; [now apply ascii_upper_ascii|now apply IH].
Qed.

(** X1.  On ASCII strings the constructor stores the same symbol for
    two strings exactly when they are equal up to the case of their
    letters; the stored symbol is an ASCII string of the length of the
    given one, holds no lower-case letter, and is stored unchanged
    when a stock is built from it again. *)
Theorem Stock_init_symbol_caseless (a b : string) (par1 par2 : Q)
    (l1 l2 f1 f2 : option Q) :
  ascii_only a = true -> ascii_only b = true ->
  (symbol (Stock_init a par1 l1 f1) = symbol (Stock_init b par2 l2 f2)
   <-> caseless_eqb a b = true) /\
  symbol (Stock_init (symbol (Stock_init a par1 l1 f1)) par2 l2 f2)
  = symbol (Stock_init a par1 l1 f1) /\
  ascii_only (symbol (Stock_init a par1 l1 f1)) = true /\
  String.length (symbol (Stock_init a par1 l1 f1)) = String.length a /\
  (forall c, In c (list_ascii_of_string (symbol (Stock_init a par1 l1 f1)))
             -> is_lower_letter c = false).
Proof.
  intros Ha Hb. simpl. repeat split.
  - intros E. now rewrite caseless_eqb_upper, E, String.eqb_refl.
  - intros E. rewrite caseless_eqb_upper in E. now apply String.eqb_eq.
  - apply upper_idempotent.
  - now apply upper_ascii_only.
  - apply upper_length.
  - apply upper_no_lower.
Qed.

Lemma Stock_init_symbol_caseless_witness :
  (symbol (Stock_init "Pop" 100 (Some 8) None)
   = symbol (Stock_init "pOP" 60 None (Some (2 # 100)))
   <-> caseless_eqb "Pop" "pOP" = true) /\
  symbol (Stock_init (symbol (Stock_init "Pop" 100 (Some 8) None))
            60 None (Some (2 # 100)))
  = symbol (Stock_init "Pop" 100 (Some 8) None) /\
  ascii_only (symbol (Stock_init "Pop" 100 (Some 8) None)) = true /\
  String.length (symbol (Stock_init "Pop" 100 (Some 8) None))
  = String.length "Pop" /\
  (forall c, In c (list_ascii_of_string
                     (symbol (Stock_init "Pop" 100 (Some 8) None)))
             -> is_lower_letter c = false).
Proof.
  apply (Stock_init_symbol_caseless "Pop" "pOP" 100 60 (Some 8) None
           None (Some (2 # 100))); reflexivity.
Defined.

(** ** Failures of the dividend yield and of the P/E ratio *)

Lemma Qdiv_zero_l (a b : Q) : a == 0 -> a / b == 0.
Proof. intros H. rewrite H. unfold Qdiv. ring. Qed.

(** X2.  A stock without the dividend attribute that its variant uses
    (the constructor's default, [None]) has neither a dividend yield
    nor a P/E ratio: [dividend_yield] and [pe_ratio] raise [TypeError]
    at every price, zero included, whatever the other attributes
    are. *)
Theorem dividend_yield_missing_dividend (a : StockAttrs) (p : Q) :
  (last_dividend a = None ->
     dividend_yield (CommonTypeStock a) p = Raise TypeError /\
     pe_ratio (CommonTypeStock a) p = Raise TypeError) /\
  (fixed_dividend a = None ->
     dividend_yield (PreferredTypeStock a) p = Raise TypeError /\
     pe_ratio (PreferredTypeStock a) p = Raise TypeError).
Proof.
  unfold pe_ratio, dividend_yield.
  split; intros H; rewrite H; split; reflexivity.
Qed.

Lemma dividend_yield_missing_dividend_witness :
  let pop := Stock_init "POP" 100 None None in
  (dividend_yield (CommonTypeStock pop) 0 = Raise TypeError /\
   pe_ratio (CommonTypeStock pop) 0 = Raise TypeError) /\
  (dividend_yield (PreferredTypeStock pop) 100 = Raise TypeError /\
   pe_ratio (PreferredTypeStock pop) 100 = Raise TypeError).
Proof.
  intros pop. split.
  - apply (proj1 (dividend_yield_missing_dividend pop 0)). reflexivity.
  - apply (proj2 (dividend_yield_missing_dividend pop 100)). reflexivity.
Defined.

(** X4.  A stock that pays no dividend has no P/E ratio at any price:
    when the last dividend of a common stock is zero, or the fixed
    dividend times the par value of a preferred stock is zero,
    [pe_ratio] raises [ZeroDivisionError] at every price, although at
    every price other than zero [dividend_yield] returns a number, which
    is zero. *)
Theorem pe_ratio_zero_dividend (a : StockAttrs) (p : Q) :
  (forall d, last_dividend a = Some d -> d == 0 ->
     pe_ratio (CommonTypeStock a) p = Raise ZeroDivisionError /\
     (~ p == 0 ->
        exists y, dividend_yield (CommonTypeStock a) p = Ok y /\ y == 0)) /\
  (forall f, fixed_dividend a = Some f -> f * par_value a == 0 ->
     pe_ratio (PreferredTypeStock a) p = Raise ZeroDivisionError /\
     (~ p == 0 ->
        exists y,
          dividend_yield (PreferredTypeStock a) p = Ok y /\ y == 0)).
Proof.
  unfold pe_ratio, dividend_yield.
  split; intros x Hx Hz; rewrite Hx; simpl;
    (split;
     [ rewrite truediv_cases; destruct (Qeq_bool p 0); simpl;
       [ reflexivity | now apply truediv_zero, Qdiv_zero_l ]
     | intros Hp; rewrite (truediv_nonzero _ _ Hp);
       eexists; split; [reflexivity | now apply Qdiv_zero_l] ]).
Qed.

Lemma pe_ratio_zero_dividend_witness :
  let tea := Stock_init "TEA" 100 (Some 0) None in
  let gin := Stock_init "GIN" 100 None (Some 0) in
  (pe_ratio (CommonTypeStock tea) 110 = Raise ZeroDivisionError /\
   pe_ratio (CommonTypeStock tea) 0 = Raise ZeroDivisionError) /\
  pe_ratio (PreferredTypeStock gin) 80 = Raise ZeroDivisionError.
Proof.
  intros tea gin. split; [split|].
  - apply (proj1 (pe_ratio_zero_dividend tea 110) 0 eq_refl). reflexivity.
  - apply (proj1 (pe_ratio_zero_dividend tea 0) 0 eq_refl). reflexivity.
  - apply (proj2 (pe_ratio_zero_dividend gin 80) 0 eq_refl). reflexivity.
Defined.

(** ** The windowed query and the symbol *)

(** The comprehension sees the trades of the queried symbol only: the
    trades of the other symbols change neither what is selected nor how
    often the clock is read. *)
Lemma select_trades_own_symbol (utc : nat -> Z) (sym : string)
    (duration : Z) (l : list Trade) :
  forall n,
    select_trades utc sym duration l n
    = select_trades utc sym duration (trades_of (upper sym) l) n.
Proof.
  induction l as [|t l IH]; intros n; simpl; [reflexivity|].
  destruct (String.eqb (stock_symbol t) (upper sym)) eqn:E; simpl.
  - now rewrite E, IH.
  - apply IH.
Qed.

Lemma select_trades_reads (utc : nat -> Z) (sym : string)
    (duration : Z) (l : list Trade) :
  forall n,
    snd (select_trades utc sym duration l n)
    = (n + List.length (trades_of (upper sym) l))%nat.
Proof.
  induction l as [|t l IH]; intros n; simpl; [lia|].
  destruct (String.eqb (stock_symbol t) (upper sym)); simpl.
  - specialize (IH (S n)).
    destruct (select_trades utc sym duration l (S n)) as [sel m].
    simpl in *. lia.
  - apply IH.
Qed.

Lemma select_trades_upper (utc : nat -> Z) (sym sym' : string)
    (duration : Z) (l : list Trade) :
  upper sym = upper sym' ->
  forall n,
    select_trades utc sym duration l n
    = select_trades utc sym' duration l n.
Proof.
  intros E. induction l as [|t l IH]; intros n; simpl; [reflexivity|].
  rewrite <- E. destruct (String.eqb (stock_symbol t) (upper sym));
    now rewrite IH.
Qed.

Lemma trades_of_absent (s : string) (l : list Trade) :
  Forall (fun t => stock_symbol t <> s) l -> trades_of s l = [].
Proof.
  induction 1 as [|t l Ht _ IH]; simpl; [reflexivity|].
  destruct (String.eqb_spec (stock_symbol t) s); [contradiction|exact IH].
Qed.

(** X10.  The price of a symbol does not depend on the trades of the
    other symbols: the query on the whole log and the query on the log
    restricted to the trades stored under the upper-cased symbol give
    the same result and leave the clock in the same state. *)
Theorem volume_weight_stock_price_own_symbol (utc : nat -> Z)
    (self : StockExchange) (sym : string) (duration : Z) (n : nat) :
  volume_weight_stock_price utc self sym duration n
  = volume_weight_stock_price utc
      (mkStockExchange (trades_of (upper sym) (trades self)))
      sym duration n.
Proof.
  unfold volume_weight_stock_price. simpl.
  now rewrite <- select_trades_own_symbol.
Qed.

(** X11.  A query reads the clock once for every trade stored under the
    upper-cased symbol, inside the window or not, and never for a trade
    of another symbol. *)
Theorem volume_weight_stock_price_clock_reads (utc : nat -> Z)
    (self : StockExchange) (sym : string) (duration : Z) (n : nat) :
  snd (volume_weight_stock_price utc self sym duration n)
  = (n + List.length (trades_of (upper sym) (trades self)))%nat.
Proof.
  unfold volume_weight_stock_price.
  rewrite <- (select_trades_reads utc sym duration (trades self) n).
  now destruct (select_trades utc sym duration (trades self) n).
Qed.

(** X12.  The case of the letters of the queried symbol is irrelevant:
    two symbols equal up to case give the same result on every log and
    under every clock. *)
Theorem volume_weight_stock_price_symbol_case (utc : nat -> Z)
    (self : StockExchange) (sym sym' : string) (duration : Z) (n : nat) :
  caseless_eqb sym sym' = true ->
  volume_weight_stock_price utc self sym duration n
  = volume_weight_stock_price utc self sym' duration n.
Proof.
  intros H. rewrite caseless_eqb_upper in H. apply String.eqb_eq in H.
  unfold volume_weight_stock_price.
  now rewrite (select_trades_upper utc sym sym' duration _ H).
Qed.

Lemma volume_weight_stock_price_symbol_case_witness :
  let pop := CommonTypeStock (Stock_init "Pop" 100 (Some 8) None) in
  let self := mkStockExchange
                [mkTrade pop 15 buy 100 0; mkTrade pop 25 sell 60 1] in
  volume_weight_stock_price (fun k => Z.of_nat k) self "pop" 5 2%nat
  = volume_weight_stock_price (fun k => Z.of_nat k) self "POP" 5 2%nat.
Proof.
  intros pop self.
  apply (volume_weight_stock_price_symbol_case (fun k => Z.of_nat k) self
           "pop" "POP" 5 2%nat).
  reflexivity.
Defined.

(** X13.  Recording a trade of another symbol changes no price of this
    one: the query gives the same result, with the same clock readings,
    before and after. *)
Theorem record_trade_other_symbol (utc : nat -> Z) (self : StockExchange)
    (t : Trade) (sym : string) (duration : Z) (n : nat) :
  stock_symbol t <> upper sym ->
  volume_weight_stock_price utc (record_trade self t) sym duration n
  = volume_weight_stock_price utc self sym duration n.
Proof.
  intros Ht. unfold volume_weight_stock_price. simpl.
  rewrite (select_trades_own_symbol utc sym duration (trades self ++ [t])).
  rewrite (select_trades_own_symbol utc sym duration (trades self)).
  unfold trades_of at 1. rewrite filter_app. simpl.
  destruct (String.eqb_spec (stock_symbol t) (upper sym));
    [contradiction|].
  now rewrite app_nil_r.
Qed.

Lemma record_trade_other_symbol_witness :
  let pop := CommonTypeStock (Stock_init "POP" 100 (Some 8) None) in
  let tea := CommonTypeStock (Stock_init "TEA" 100 (Some 0) None) in
  let self := mkStockExchange [mkTrade pop 15 buy 100 0] in
  volume_weight_stock_price (fun k => Z.of_nat k)
    (record_trade self (mkTrade tea 0 sell 10 1)) "pop" 5 2%nat
  = volume_weight_stock_price (fun k => Z.of_nat k) self "pop" 5 2%nat.
Proof.
  intros pop tea self.
  apply (record_trade_other_symbol (fun k => Z.of_nat k) self
           (mkTrade tea 0 sell 10 1) "pop" 5 2%nat).
  intros H. discriminate H.
Defined.

(** X14.  A query for a symbol under which no trade is stored returns
    [None] without reading the clock; in particular every query on a
    new exchange does. *)
Theorem volume_weight_stock_price_unknown_symbol (utc : nat -> Z)
    (self : StockExchange) (sym : string) (duration : Z) (n : nat) :
  Forall (fun t => stock_symbol t <> upper sym) (trades self) ->
  volume_weight_stock_price utc self sym duration n = (Ok None, n).
Proof.
  intros H. unfold volume_weight_stock_price.
  rewrite select_trades_own_symbol, (trades_of_absent _ _ H).
  reflexivity.
Qed.

Lemma volume_weight_stock_price_unknown_symbol_witness :
  let tea := CommonTypeStock (Stock_init "TEA" 100 (Some 0) None) in
  volume_weight_stock_price (fun k => Z.of_nat k)
    (mkStockExchange [mkTrade tea 100 buy 110 0]) "ALE" 15 1%nat
  = (Ok None, 1%nat) /\
  volume_weight_stock_price (fun k => Z.of_nat k)
    StockExchange_init "TEA" 15 0%nat
  = (Ok None, 0%nat).
Proof.
  intros tea. split.
  - apply (volume_weight_stock_price_unknown_symbol (fun k => Z.of_nat k)
             (mkStockExchange [mkTrade tea 100 buy 110 0]) "ALE" 15 1%nat).
    repeat constructor. intros H. discriminate H.
  - apply (volume_weight_stock_price_unknown_symbol (fun k => Z.of_nat k)
             StockExchange_init "TEA" 15 0%nat).
    constructor.
Defined.

(** ** The windowed query and the length of the window *)

Lemma select_trades_cons (utc : nat -> Z) (sym : string) (duration : Z)
    (t : Trade) (l : list Trade) (n : nat) :
  select_trades utc sym duration (t :: l) n
  = if String.eqb (stock_symbol t) (upper sym) then
      let rest := select_trades utc sym duration l (S n) in
      (if (utc n - timedelta_minutes duration <=? timestamp t)%Z
       then t :: fst rest else fst rest, snd rest)
    else select_trades utc sym duration l n.
Proof.
  simpl. destruct (String.eqb (stock_symbol t) (upper sym));
    [|reflexivity].
  destruct (select_trades utc sym duration l (S n)). reflexivity.
Qed.




(** X16.  A longer window never loses a trade: when the lower bounds
    of both windows are values that [datetime] can hold, so that no
    subtraction overflows, every trade selected for a duration is
    selected, under the same clock, for every longer duration, and the
    clock is read equally often. *)
Theorem select_trades_longer_window (utc : nat -> Z) (sym : string)
    (d1 d2 : Z) (l : list Trade) (n : nat) :
  (d1 <= d2)%Z ->
  (forall k, (n <= k)%nat ->
     datetime_in_range (utc k) /\
     datetime_in_range (utc k - timedelta_minutes d1) /\
     datetime_in_range (utc k - timedelta_minutes d2)) ->
  incl (fst (select_trades utc sym d1 l n))
       (fst (select_trades utc sym d2 l n)) /\
  snd (select_trades utc sym d1 l n) = snd (select_trades utc sym d2 l n).
Proof.
  intros Hd _. revert n. induction l as [|t l IH]; intros n.
  - split; [apply incl_refl|reflexivity].
  - rewrite !select_trades_cons.
    destruct (String.eqb (stock_symbol t) (upper sym)); [|apply IH].
    destruct (IH (S n)) as [IHi IHn]. simpl. split; [|assumption].
    destruct (Z.leb_spec (utc n - timedelta_minutes d1) (timestamp t))
      as [H1|H1];
      destruct (Z.leb_spec (utc n - timedelta_minutes d2) (timestamp t))
      as [H2|H2].
    + intros u [<-|Hu]; [now left|right; now apply IHi].
    + unfold timedelta_minutes in *. lia.
    + now apply incl_tl.
    + assumption.
Qed.

Lemma select_trades_longer_window_witness :
  let pop := CommonTypeStock (Stock_init "POP" 100 (Some 8) None) in
  let l := [mkTrade pop 15 buy 100 5400000000;
            mkTrade pop 25 buy 60 5800000000] in
  incl (fst (select_trades (fun _ => 6000000000%Z) "POP" 5 l 0%nat))
       (fst (select_trades (fun _ => 6000000000%Z) "POP" 15 l 0%nat)) /\
  snd (select_trades (fun _ => 6000000000%Z) "POP" 5 l 0%nat)
  = snd (select_trades (fun _ => 6000000000%Z) "POP" 15 l 0%nat).
Proof.
  intros pop l.
  apply (select_trades_longer_window (fun _ => 6000000000%Z) "POP" 5 15 l
           0%nat).
  - lia.
  - intros k _. unfold datetime_in_range, datetime_max, timedelta_minutes.
    lia.
Defined.

(** ** Sessions *)

Lemma stamped_orders_length (utc : nat -> Z)
    (orders : list (Stock * Q * TradeType * Q)) :
  forall n, List.length (stamped_orders utc n orders) = List.length orders.
Proof.
  induction orders as [|[[[s qty] side] p] orders IH]; intros n; simpl;
    [reflexivity|now rewrite IH].
Qed.

(** X17.  Constructing and recording trades one after the other
    appends to the log, for each order in turn, one trade with the
    attributes of the order and the next reading of the clock as its
    timestamp; the clock is read once per trade and the trades that
    were in the log stay in front, unchanged. *)
Theorem trade_session_log (utc : nat -> Z)
    (orders : list (Stock * Q * TradeType * Q)) :
  forall self n,
    trade_session utc orders self n
    = (mkStockExchange (trades self ++ stamped_orders utc n orders),
       (n + List.length orders)%nat).
Proof.
  induction orders as [|[[[s qty] side] p] orders IH]; intros self n.
  - simpl. rewrite app_nil_r, Nat.add_0_r. now destruct self.
  - simpl. rewrite IH. simpl. rewrite <- app_assoc. simpl.
    f_equal. lia.
Qed.

Lemma trade_session_trades (utc : nat -> Z)
    (orders : list (Stock * Q * TradeType * Q)) :
  forall self n,
    trades (fst (trade_session utc orders self n))
    = trades self ++ stamped_orders utc n orders.
Proof.
  induction orders as [|[[[s qty] side] p] orders IH]; intros self n; simpl.
  - now rewrite app_nil_r.
  - rewrite IH. simpl. now rewrite <- app_assoc.
Qed.

Lemma stamped_orders_not_before (utc : nat -> Z)
    (orders : list (Stock * Q * TradeType * Q)) :
  (forall i j, (i <= j)%nat -> (utc i <= utc j)%Z) ->
  forall n, Forall (fun t => (utc n <= timestamp t)%Z)
                   (stamped_orders utc n orders).
Proof.
  intros Hmono.
  induction orders as [|[[[s qty] side] p] orders IH]; intros n; simpl;
    constructor.
  - simpl. lia.
  - apply Forall_impl with (2 := IH (S n)). intros t Ht.
    pose proof (Hmono n (S n)). lia.
Qed.

Lemma stamped_orders_time_order (utc : nat -> Z)
    (orders : list (Stock * Q * TradeType * Q)) :
  (forall i j, (i <= j)%nat -> (utc i <= utc j)%Z) ->
  forall n, in_time_order (stamped_orders utc n orders).
Proof.
  intros Hmono.
  induction orders as [|[[[s qty] side] p] orders IH]; intros n;
    [exact I|].
  specialize (IH (S n)).
  pose proof (stamped_orders_not_before utc orders Hmono (S n)) as Hnb.
  change (stamped_orders utc n ((s, qty, side, p) :: orders))
    with (mkTrade s qty side p (utc n) :: stamped_orders utc (S n) orders).
  destruct (stamped_orders utc (S n) orders) as [|u rest]; [exact I|].
  split; [|exact IH].
  inversion Hnb as [|? ? Hu _]; subst. simpl.
  pose proof (Hmono n (S n)). lia.
Qed.

(** X18.  Under a clock that never goes back, the log of an exchange
    filled through the constructor is in time order: no trade is
    stamped earlier than the trade recorded before it. *)
Theorem trade_session_time_order (utc : nat -> Z)
    (orders : list (Stock * Q * TradeType * Q)) (n : nat) :
  (forall i j, (i <= j)%nat -> (utc i <= utc j)%Z) ->
  in_time_order
    (trades (fst (trade_session utc orders StockExchange_init n))).
Proof.
  intros Hmono. rewrite trade_session_trades. simpl.
  now apply stamped_orders_time_order.
Qed.

Lemma trade_session_time_order_witness :
  let tea := CommonTypeStock (Stock_init "TEA" 100 (Some 0) None) in
  let gin := PreferredTypeStock
               (Stock_init "GIN" 100 (Some 8) (Some (2 # 100))) in
  in_time_order
    (trades (fst (trade_session (fun k => Z.of_nat (k / 2))
                    [(tea, 100, buy, 110); (tea, 200, buy, 105);
                     (gin, 200, buy, 80)]
                    StockExchange_init 0%nat))).
Proof.
  intros tea gin.
  apply (trade_session_time_order (fun k => Z.of_nat (k / 2))).
  intros i j Hij. apply Nat2Z.inj_le. now apply Nat.Div0.div_le_mono.
Defined.

Lemma stamped_orders_normalized (utc : nat -> Z)
    (orders : list (Stock * Q * TradeType * Q)) :
  Forall (fun o => normalized (fst (fst (fst o)))) orders ->
  forall n, Forall (fun t => normalized (stock t))
                   (stamped_orders utc n orders).
Proof.
  induction 1 as [|[[[s qty] side] p] orders Ho _ IH]; intros n; simpl;
    constructor; [exact Ho|apply IH].
Qed.

(** X19.  From the constructor to the query.  Fill a new exchange with
    trades on normalized stocks under a clock that never goes back, and
    query it while the clock reads [now]: the result is [None] when no
    trade matches the symbol case-insensitively with a timestamp in
    [[now - duration, now]]; otherwise it is the sum of price times
    quantity over those trades divided by their total quantity, or
    [ZeroDivisionError] when that total is zero. *)
Theorem session_query_window (utc : nat -> Z)
    (orders : list (Stock * Q * TradeType * Q)) (sym : string)
    (duration now : Z) (n : nat) :
  (forall i j, (i <= j)%nat -> (utc i <= utc j)%Z) ->
  Forall (fun o => normalized (fst (fst (fst o)))) orders ->
  (forall k, (n + List.length orders <= k
              < n + List.length orders + List.length orders)%nat ->
             utc k = now) ->
  let self := fst (trade_session utc orders StockExchange_init n) in
  let m := snd (trade_session utc orders StockExchange_init n) in
  let sel := window_trades sym now duration (trades self) in
  fst (volume_weight_stock_price utc self sym duration m)
  = match sel with
    | [] => Ok None
    | _ :: _ =>
        if Qeq_bool (total_quantity sel) 0 then Raise ZeroDivisionError
        else Ok (Some (weighted_average sel))
    end.
Proof.
  intros Hmono Hnorm Hnow self m sel.
  assert (Hm : m = (n + List.length orders)%nat).
  { subst m.
    destruct (trade_session_stamped utc orders StockExchange_init n)
      as [H _]; [constructor|exact H]. }
  assert (Hlog : trades self = stamped_orders utc n orders)
    by (subst self; now rewrite trade_session_trades).
  assert (Hlen : List.length (trades self) = List.length orders)
    by (rewrite Hlog; apply stamped_orders_length).
  assert (Hclock : forall k, (m <= k < m + List.length (trades self))%nat
                             -> utc k = now).
  { intros k Hk. apply Hnow. lia. }
  assert (Hn : Forall (fun t => normalized (stock t)) (trades self))
    by (rewrite Hlog; now apply stamped_orders_normalized).
  assert (Ht : Forall (fun t => (timestamp t <= now)%Z) (trades self)).
  { destruct orders as [|o orders'].
    - rewrite Hlog. constructor.
    - assert (Hmn : utc m = now) by (apply Hnow; rewrite Hm; simpl; lia).
      rewrite <- Hmn.
      apply trade_session_not_after; [assumption|lia]. }
  unfold volume_weight_stock_price.
  pose proof (select_trades_constant_clock utc sym duration now
                (trades self) m Hclock) as Hsel.
  rewrite (filter_window_trades sym duration now _ Hn Ht) in Hsel.
  fold sel in Hsel.
  destruct (select_trades utc sym duration (trades self) m) as [s k].
  simpl in Hsel. subst s. simpl.
  destruct sel as [|t sel']; [reflexivity|].
  rewrite vwap_cases.
  now destruct (Qeq_bool (total_quantity (t :: sel')) 0).
Qed.

Lemma session_query_window_witness :
  let tea := CommonTypeStock (Stock_init "tea" 100 (Some 0) None) in
  let gin := PreferredTypeStock
               (Stock_init "GIN" 100 (Some 8) (Some (2 # 100))) in
  let utc := fun k => Z.of_nat (Nat.min k 3) in
  let orders := [(tea, 100, buy, 110); (tea, 200, buy, 105);
                 (gin, 200, buy, 80)] in
  fst (volume_weight_stock_price utc
         (fst (trade_session utc orders StockExchange_init 0%nat))
         "Tea" 15 3%nat)
  = Ok (Some (weighted_average
                [mkTrade tea 100 buy 110 0; mkTrade tea 200 buy 105 1])).
Proof.
  intros tea gin utc orders.
  apply (session_query_window utc orders "Tea" 15 3 0%nat).
  - intros i j Hij. subst utc. cbv beta. lia.
  - repeat constructor.
  - intros k Hk. simpl in Hk. subst utc. cbv beta. lia.
Defined.

(** ** The groups and the result of the all-share index *)

Lemma map_result_length {A B : Type} (f : A -> result B) (l : list A) :
  forall ys, map_result f l = Ok ys -> List.length ys = List.length l.
Proof.
  induction l as [|x l IH]; simpl; intros ys H.
  - now injection H as <-.
  - destruct (f x) as [y|e]; simpl in H; [|discriminate].
    destruct (map_result f l) as [zs|e]; simpl in H; [|discriminate].
    injection H as <-. simpl. now rewrite (IH zs).
Qed.

Lemma map_result_vwap_exn (G : list (string * list Trade)) (e : exn) :
  map_result (fun g => vwap (snd g)) G = Raise e ->
  e = ZeroDivisionError.
Proof.
  induction G as [|g G IH]; simpl; [discriminate|].
  rewrite vwap_cases.
  destruct (Qeq_bool (total_quantity (snd g)) 0); simpl.
  - intros H. now injection H as <-.
  - destruct (map_result (fun g => vwap (snd g)) G) as [ys|e'];
      simpl; [discriminate|].
    intros H. injection H as <-. now apply IH.
Qed.

Lemma stock_prices_nonempty (self : StockExchange) (prices : list Q) :
  trades self <> [] -> stock_prices self = Ok prices -> prices <> [].
Proof.
  intros Hne H Hnil. unfold stock_prices in H.
  apply map_result_length in H. subst prices.
  destruct (trades self) as [|t l]; [contradiction|].
  destruct (groupby_head stock_symbol t l) as [g [rest E]].
  rewrite E in H. discriminate H.
Qed.

(** What [all_share_index] does on a log that is not empty. *)
Lemma all_share_index_nonempty (power : Q -> Q -> Q)
    (self : StockExchange) :
  trades self <> [] ->
  all_share_index power self = Raise ZeroDivisionError \/
  exists prices,
    stock_prices self = Ok prices /\ prices <> [] /\
    all_share_index power self
    = Ok (Some (power (product_of prices)
                      (1 / inject_Z (Z.of_nat (List.length prices))))).
Proof.
  intros Hne. unfold all_share_index.
  destruct (stock_prices self) as [prices|e] eqn:E.
  - right. exists prices.
    pose proof (stock_prices_nonempty self prices Hne E) as Hp.
    destruct (trades self) as [|t l]; [contradiction|].
    split; [reflexivity|]. split; [assumption|]. simpl bind.
    rewrite (reduce_product _ Hp). simpl bind.
    rewrite truediv_count; [reflexivity|].
    destruct prices; [contradiction|discriminate].
  - left. apply map_result_vwap_exn in E. subst e.
    destruct (trades self); [contradiction|reflexivity].
Qed.

(** X20.  On a log that is not empty [all_share_index] fails only
    where pricing a group fails: when every group can be priced the
    index is a number, since [reduce] gets a list of prices that is not
    empty and [1 / len(prices)] does not divide by zero; when pricing
    fails the index raises the same exception. *)
Theorem all_share_index_after_prices (power : Q -> Q -> Q)
    (self : StockExchange) :
  trades self <> [] ->
  (forall prices, stock_prices self = Ok prices ->
     prices <> [] /\
     exists product,
       reduce Qmult prices = Ok product /\
       all_share_index power self
       = Ok (Some (power product
                     (1 / inject_Z (Z.of_nat (List.length prices)))))) /\
  (forall e, stock_prices self = Raise e ->
     all_share_index power self = Raise e).
Proof.
  intros Hne. split.
  - intros prices Hp.
    pose proof (stock_prices_nonempty self prices Hne Hp) as Hnil.
    split; [assumption|]. unfold all_share_index. rewrite Hp.
    destruct (trades self) as [|t l]; [contradiction|].
    destruct prices as [|x xs]; [contradiction|].
    eexists. split; [reflexivity|]. cbn [bind reduce].
    rewrite truediv_count by discriminate. reflexivity.
  - intros e He. unfold all_share_index. rewrite He.
    destruct (trades self); [contradiction|reflexivity].
Qed.

Lemma all_share_index_after_prices_witness :
  let pop := CommonTypeStock (Stock_init "POP" 100 (Some 8) None) in
  let tea := CommonTypeStock (Stock_init "TEA" 100 (Some 0) None) in
  let self := mkStockExchange
                [mkTrade pop 1 buy 10 0; mkTrade tea 1 buy 20 1;
                 mkTrade pop 1 sell 30 2] in
  let void := mkStockExchange
                [mkTrade pop 1 buy 10 0; mkTrade tea 0 buy 20 1] in
  ([10; 20; 30] <> [] /\
   exists product,
     reduce Qmult [10; 20; 30] = Ok product /\
     all_share_index (fun b e => b * e) self
     = Ok (Some (product * (1 / inject_Z (Z.of_nat 3))))) /\
  all_share_index (fun b e => b * e) void = Raise ZeroDivisionError.
Proof.
  intros pop tea self void. split.
  - apply (proj1 (all_share_index_after_prices (fun b e => b * e) self
                    ltac:(discriminate)) [10; 20; 30]).
    reflexivity.
  - apply (proj2 (all_share_index_after_prices (fun b e => b * e) void
                    ltac:(discriminate)) ZeroDivisionError).
    reflexivity.
Defined.

(** X21.  [all_share_index] returns the sentinel [None] exactly when no
    trade has been recorded; once a trade is recorded it returns a
    number or raises, whatever was in the log before. *)
Theorem all_share_index_None_iff (power : Q -> Q -> Q)
    (self : StockExchange) :
  (all_share_index power self = Ok None <-> trades self = []) /\
  (forall t, all_share_index power (record_trade self t) <> Ok None).
Proof.
  assert (H : forall ex, trades ex <> [] ->
                         all_share_index power ex <> Ok None).
  { intros ex Hne Hnone.
    destruct (all_share_index_nonempty power ex Hne)
      as [Hz|[ps [_ [_ Hv]]]]; rewrite Hnone in *; discriminate. }
  split; [split|].
  - intros Hnone. destruct (trades self) as [|t l] eqn:E; [reflexivity|].
    exfalso. apply (H self); [rewrite E; discriminate|assumption].
  - intros E. unfold all_share_index. now rewrite E.
  - intros t. apply H. simpl. now destruct (trades self).
Qed.

Lemma neighbours_differ_groupby {A : Type} (key : A -> string)
    (l : list A) :
  neighbours_differ (map fst (groupby key l)).
Proof.
  induction l as [|x xs IH]; [exact I|]. rewrite groupby_cons.
  destruct (groupby key xs) as [|[k g] rest]; [exact I|].
  destruct (String.eqb_spec (key x) k) as [E|E]; [exact IH|].
  split; assumption.
Qed.

(** X22.  The groups that [all_share_index] prices partition the log
    into runs: put end to end they are the log, none is empty, the
    trades of a group all have the symbol of the group, and two
    consecutive groups have different symbols. *)
Theorem stock_groups_partition (log : list Trade) :
  let groups := groupby stock_symbol log in
  List.concat (map snd groups) = log /\
  Forall (fun g => snd g <> [] /\
                   Forall (fun t => stock_symbol t = fst g) (snd g))
         groups /\
  neighbours_differ (map fst groups).
Proof.
  intros groups. split; [apply groupby_concat|]. split.
  - exact (groupby_runs stock_symbol log).
  - apply neighbours_differ_groupby.
Qed.

(** ** How many groups *)

Lemma NoDup_distinct (l : list string) : NoDup (distinct l).
Proof.
  induction l as [|x xs IH]; simpl; constructor.
  - rewrite filter_In, String.eqb_refl. intros [_ H]. discriminate H.
  - now apply NoDup_filter.
Qed.

Lemma keys_of_runs {A : Type} (key : A -> string)
    (G : list (string * list A)) (k : string) :
  Forall (run key) G ->
  In k (map key (List.concat (map snd G))) -> In k (map fst G).
Proof.
  induction 1 as [|[k' g] G [_ Hk] _ IH]; simpl; [tauto|].
  rewrite map_app, in_app_iff. intros [Hin|Hin].
  - left. apply in_map_iff in Hin. destruct Hin as [x [Ex Hx]].
    simpl in Hk. rewrite Forall_forall in Hk. now rewrite <- (Hk x Hx).
  - right. now apply IH.
Qed.

Lemma groupby_keys_complete {A : Type} (key : A -> string) (l : list A)
    (k : string) :
  In k (map key l) -> In k (map fst (groupby key l)).
Proof.
  intros H. apply (keys_of_runs key); [apply groupby_runs|].
  now rewrite groupby_concat.
Qed.

Lemma runs_count {A : Type} (key : A -> string)
    (G : list (string * list A)) :
  Forall (run key) G ->
  (List.length G <= List.length (List.concat (map snd G)))%nat.
Proof.
  induction 1 as [|[k g] G [Hne _] _ IH]; simpl; [lia|].
  rewrite length_app. destruct g; [contradiction|]. simpl. lia.
Qed.

(** X23.  The number of prices that enter the index is at least the
    number of distinct symbols in the log and at most the number of
    trades. *)
Theorem stock_prices_count (self : StockExchange) (prices : list Q) :
  stock_prices self = Ok prices ->
  (List.length (traded_symbols (trades self)) <= List.length prices
   <= List.length (trades self))%nat.
Proof.
  intros H. unfold stock_prices in H. apply map_result_length in H.
  rewrite H. split.
  - rewrite <- (length_map fst (groupby stock_symbol (trades self))).
    apply NoDup_incl_length; [apply NoDup_distinct|].
    intros k Hk. apply groupby_keys_complete. now apply In_distinct.
  - rewrite <- (groupby_concat stock_symbol (trades self)) at 2.
    apply (runs_count stock_symbol), groupby_runs.
Qed.

Lemma stock_prices_count_witness :
  let pop := CommonTypeStock (Stock_init "POP" 100 (Some 8) None) in
  let tea := CommonTypeStock (Stock_init "TEA" 100 (Some 0) None) in
  let log := [mkTrade pop 1 buy 10 0; mkTrade tea 1 buy 20 1;
              mkTrade pop 1 sell 30 2; mkTrade pop 2 sell 40 3] in
  let prices := [10; 20; 110 # 3] in
  (List.length (traded_symbols log) <= List.length prices
   <= List.length log)%nat.
Proof.
  intros pop tea log prices.
  apply (stock_prices_count (mkStockExchange log) prices).
  reflexivity.
Defined.

(** ** When the groups are the groups of a group-by *)

Lemma In_drop_run (k : string) (l : list Trade) (t : Trade) :
  In t (drop_run k l) -> In t l.
Proof.
  induction l as [|x xs IH]; simpl; [tauto|].
  destruct (String.eqb (stock_symbol x) k); [|tauto].
  intros H. right. now apply IH.
Qed.

Lemma drop_run_app (k : string) (g l : list Trade) :
  Forall (fun t => stock_symbol t = k) g ->
  drop_run k (g ++ l) = drop_run k l.
Proof.
  induction 1 as [|x g Hx _ IH]; simpl; [reflexivity|].
  now rewrite Hx, String.eqb_refl.
Qed.

Lemma groupby_nil {A : Type} (key : A -> string) (l : list A) :
  groupby key l = [] -> l = [].
Proof.
  destruct l as [|x xs]; [reflexivity|].
  destruct (groupby_head key x xs) as [g [rest E]]. rewrite E.
  discriminate.
Qed.

Lemma NoDup_keys_adjacent (l : list Trade) :
  NoDup (map fst (groupby stock_symbol l)) -> symbols_adjacent l.
Proof.
  induction l as [|x xs IH]; [intros _; exact I|].
  rewrite groupby_cons.
  pose proof (groupby_runs stock_symbol xs) as Hruns.
  pose proof (groupby_concat stock_symbol xs) as Hcat.
  destruct (groupby stock_symbol xs) as [|[k g] rest] eqn:E.
  - apply groupby_nil in E. subst xs. intros _. simpl. tauto.
  - destruct (String.eqb_spec (stock_symbol x) k) as [Ek|Ek]; intros Hnd.
    + split; [|apply IH; exact Hnd].
      simpl in Hnd. apply NoDup_cons_iff in Hnd as [Hnotin _].
      destruct (Forall_inv Hruns) as [_ Hg]. simpl in Hg.
      pose proof (Forall_inv_tail Hruns) as Hrest.
      intros Hin. apply Hnotin.
      apply (keys_of_runs stock_symbol); [assumption|].
      simpl in Hcat. rewrite <- Hcat, Ek, (drop_run_app _ _ _ Hg) in Hin.
      apply in_map_iff in Hin. destruct Hin as [t [Et Ht]].
      apply in_map_iff. exists t. split; [assumption|].
      now apply In_drop_run in Ht.
    + rewrite map_cons in Hnd.
      apply NoDup_cons_iff in Hnd as [Hnotin Hnd'].
      split; [|apply IH; exact Hnd'].
      intros Hin. apply Hnotin. cbn [fst]. rewrite <- E.
      apply groupby_keys_complete.
      apply in_map_iff in Hin. destruct Hin as [t [Et Ht]].
      apply in_map_iff. exists t. split; [assumption|].
      now apply In_drop_run in Ht.
Qed.

(** X24.  The groups of [all_share_index] are the groups of a group-by
    on the symbol (one group per distinct symbol, holding all of its
    trades) exactly when the trades of every symbol are adjacent in the
    log. *)
Theorem groupby_is_group_by_iff (log : list Trade) :
  groupby stock_symbol log = group_by_symbol log <-> symbols_adjacent log.
Proof.
  split; [|apply groupby_group_by_symbol].
  intros E. apply NoDup_keys_adjacent. rewrite E.
  unfold group_by_symbol. rewrite map_map. simpl. rewrite map_id.
  apply NoDup_distinct.
Qed.

(** ** Recording a trade and the prices of the index *)

Lemma groupby_join {A : Type} (key : A -> string) (x : A) (xs : list A) :
  groupby key (x :: xs) = join_group key x (groupby key xs).
Proof. reflexivity. Qed.

Lemma join_group_app {A : Type} (key : A -> string) (x : A)
    (G T : list (string * list A)) :
  G <> [] -> join_group key x (G ++ T) = join_group key x G ++ T.
Proof.
  destruct G as [|[k g] G]; [contradiction|]. intros _. simpl.
  now destruct (String.eqb (key x) k).
Qed.

Lemma groupby_not_nil {A : Type} (key : A -> string) (x : A)
    (xs : list A) :
  groupby key (x :: xs) <> [].
Proof.
  destruct (groupby_head key x xs) as [g [rest E]]. rewrite E.
  discriminate.
Qed.

(** A trade whose symbol is not that of the last item starts a group. *)
Lemma groupby_snoc_new {A : Type} (key : A -> string) (t : A)
    (l : list A) :
  (forall l' u, l = l' ++ [u] -> key u <> key t) ->
  groupby key (l ++ [t]) = groupby key l ++ [(key t, [t])].
Proof.
  induction l as [|x xs IH]; intros H; [reflexivity|].
  simpl app. rewrite !groupby_join. destruct xs as [|y ys].
  - simpl. destruct (String.eqb_spec (key x) (key t)) as [E|E];
      [|reflexivity].
    now destruct (H [] x eq_refl).
  - rewrite IH.
    + apply join_group_app, groupby_not_nil.
    + intros l' u E. apply (H (x :: l') u). now rewrite E.
Qed.

(** A trade whose symbol is that of the last group joins it. *)
Lemma groupby_snoc_same {A : Type} (key : A -> string) (t : A)
    (l : list A) :
  forall G k g,
    groupby key l = G ++ [(k, g)] -> key t = k ->
    groupby key (l ++ [t]) = G ++ [(k, g ++ [t])].
Proof.
  induction l as [|x xs IH]; intros G k g HG Hk.
  - simpl in HG. now destruct G.
  - simpl app. rewrite groupby_join in *. destruct xs as [|y ys].
    + simpl in HG. change [(key x, [x])] with ([] ++ [(key x, [x])]) in HG.
      apply app_inj_tail in HG. destruct HG as [<- HG].
      injection HG as <- <-. simpl. now rewrite Hk, String.eqb_refl.
    + destruct (exists_last (groupby_not_nil key y ys))
        as [G' [[k' g'] E]].
      rewrite E in HG. destruct G' as [|h G'].
      * simpl in HG.
        destruct (String.eqb_spec (key x) k') as [Ex|Ex].
        -- change [(k', x :: g')] with ([] ++ [(k', x :: g')]) in HG.
           apply app_inj_tail in HG. destruct HG as [<- HG].
           injection HG as <- <-.
           rewrite (IH [] k' g' E Hk). simpl.
           now rewrite Ex, String.eqb_refl.
        -- change [(key x, [x]); (k', g')]
             with ([(key x, [x])] ++ [(k', g')]) in HG.
           apply app_inj_tail in HG. destruct HG as [<- HG].
           injection HG as <- <-.
           rewrite (IH [] k' g' E Hk). simpl.
           destruct (String.eqb_spec (key x) k'); [contradiction|].
           reflexivity.
      * rewrite join_group_app in HG by discriminate.
        apply app_inj_tail in HG. destruct HG as [<- HG].
        injection HG as <- <-.
        rewrite (IH (h :: G') k' g' E Hk).
        apply join_group_app. discriminate.
Qed.

Lemma groupby_last_key {A : Type} (key : A -> string) (l : list A) :
  forall u G k g, groupby key (l ++ [u]) = G ++ [(k, g)] -> k = key u.
Proof.
  induction l as [|w l' IH] using rev_ind; intros u G k g H.
  - simpl in H. change [(key u, [u])] with ([] ++ [(key u, [u])]) in H.
    apply app_inj_tail in H. destruct H as [_ H]. now injection H.
  - destruct (String.eqb_spec (key w) (key u)) as [E|E].
    + assert (Hne : groupby key (l' ++ [w]) <> [])
        by (destruct l'; apply groupby_not_nil).
      destruct (exists_last Hne) as [G0 [[k0 g0] E0]].
      pose proof (IH w G0 k0 g0 E0) as Hk0.
      rewrite (groupby_snoc_same key u _ G0 k0 g0 E0) in H
        by (now rewrite Hk0).
      apply app_inj_tail in H. destruct H as [_ H].
      injection H as <- _. now rewrite Hk0.
    + rewrite groupby_snoc_new in H.
      * apply app_inj_tail in H. destruct H as [_ H]. now injection H.
      * intros l0 u0 E0. apply app_inj_tail in E0.
        destruct E0 as [_ <-]. exact E.
Qed.

Lemma map_result_app {A B : Type} (f : A -> result B) (l1 l2 : list A) :
  map_result f (l1 ++ l2)
  = (ys1 <- map_result f l1 ;;
     ys2 <- map_result f l2 ;;
     Ok (ys1 ++ ys2)).
Proof.
  induction l1 as [|x l1 IH]; simpl.
  - now destruct (map_result f l2).
  - destruct (f x) as [y|e]; simpl; [|reflexivity]. rewrite IH.
    destruct (map_result f l1) as [ys1|e]; simpl; [|reflexivity].
    now destruct (map_result f l2).
Qed.

(** X25.  Recording a trade whose symbol is not that of the last trade
    of the log (or the first trade on a new exchange) adds one price to
    the prices of the index, the volume-weighted price of that trade
    alone, and leaves the other prices as they were, also when the
    symbol occurs earlier in the log. *)
Theorem stock_prices_record_new_symbol (self : StockExchange) (t : Trade)
    (prices : list Q) (v : Q) :
  stock_prices self = Ok prices ->
  vwap [t] = Ok v ->
  (forall l u, trades self = l ++ [u] ->
               stock_symbol u <> stock_symbol t) ->
  stock_prices (record_trade self t) = Ok (prices ++ [v]).
Proof.
  unfold stock_prices. intros Hp Hv Hlast. simpl trades.
  rewrite (groupby_snoc_new stock_symbol t _ Hlast), map_result_app, Hp.
  simpl. now rewrite Hv.
Qed.

Lemma stock_prices_record_new_symbol_witness :
  let pop := CommonTypeStock (Stock_init "POP" 100 (Some 8) None) in
  let tea := CommonTypeStock (Stock_init "TEA" 100 (Some 0) None) in
  let self := mkStockExchange
                [mkTrade pop 1 buy 10 0; mkTrade tea 1 buy 20 1] in
  stock_prices (record_trade self (mkTrade pop 3 sell 30 2))
  = Ok ([10; 20] ++ [90 # 3]).
Proof.
  intros pop tea self.
  apply (stock_prices_record_new_symbol self (mkTrade pop 3 sell 30 2)
           [10; 20] (90 # 3)).
  - reflexivity.
  - reflexivity.
  - intros l u E.
    change (trades self) with ([mkTrade pop 1 buy 10 0]
                               ++ [mkTrade tea 1 buy 20 1]) in E.
    apply app_inj_tail in E. destruct E as [_ <-].
    intros H. discriminate H.
Defined.

(** X26.  Recording a trade with the symbol of the last trade of the
    log changes the last price of the index only: when the prices can
    be computed before and after, there are as many of them and all but
    the last are the same. *)
Theorem stock_prices_record_same_symbol (self : StockExchange)
    (t u : Trade) (l : list Trade) (prices prices' : list Q) :
  trades self = l ++ [u] ->
  stock_symbol u = stock_symbol t ->
  stock_prices self = Ok prices ->
  stock_prices (record_trade self t) = Ok prices' ->
  removelast prices' = removelast prices /\
  List.length prices' = List.length prices.
Proof.
  unfold stock_prices. intros Hlog Hsym Hp Hp'. simpl trades in Hp'.
  assert (Hne : groupby stock_symbol (trades self) <> [])
    by (rewrite Hlog; destruct l; apply groupby_not_nil).
  destruct (exists_last Hne) as [G [[k g] E]].
  assert (Hk : stock_symbol t = k).
  { rewrite Hlog in E. rewrite <- Hsym. symmetry.
    exact (groupby_last_key stock_symbol l u G k g E). }
  rewrite (groupby_snoc_same stock_symbol t _ G k g E Hk) in Hp'.
  rewrite E in Hp. rewrite map_result_app in Hp, Hp'.
  destruct (map_result (fun group => vwap (snd group)) G) as [ps|e];
    simpl in Hp, Hp'; [|discriminate].
  destruct (vwap g) as [v|e]; simpl in Hp; [|discriminate].
  destruct (vwap (g ++ [t])) as [v'|e]; simpl in Hp'; [|discriminate].
  injection Hp as <-. injection Hp' as <-.
  rewrite !removelast_last, !length_app. split; reflexivity.
Qed.

Lemma stock_prices_record_same_symbol_witness :
  let pop := CommonTypeStock (Stock_init "POP" 100 (Some 8) None) in
  let tea := CommonTypeStock (Stock_init "TEA" 100 (Some 0) None) in
  let self := mkStockExchange
                [mkTrade tea 1 buy 20 0; mkTrade pop 25 buy 10 1] in
  let prices' := [20; 1750 # 50] in
  removelast prices' = removelast [20; 250 # 25] /\
  List.length prices' = List.length [20; 250 # 25].
Proof.
  intros pop tea self prices'.
  apply (stock_prices_record_same_symbol self (mkTrade pop 25 buy 60 2)
           (mkTrade pop 25 buy 10 1) [mkTrade tea 1 buy 20 0]);
    reflexivity.
Defined.

(** ** What the index reads of a trade *)

Lemma vwap_same_for_index (l1 l2 : list Trade) :
  Forall2 same_for_index l1 l2 -> vwap l1 = vwap l2.
Proof.
  intros H. unfold vwap.
  assert (E : map (fun t => price t * quantity t) l1
              = map (fun t => price t * quantity t) l2
              /\ map quantity l1 = map quantity l2).
  { induction H as [|t u k1 k2 [_ [Hq Hp]] _ [IHv IHq]]; simpl.
    - split; reflexivity.
    - rewrite Hq, Hp, IHv, IHq. split; reflexivity. }
  destruct E as [Ev Eq]. now rewrite Ev, Eq.
Qed.

Lemma groupby_same_for_index (l1 l2 : list Trade) :
  Forall2 same_for_index l1 l2 ->
  Forall2 (fun g1 g2 => Forall2 same_for_index (snd g1) (snd g2))
          (groupby stock_symbol l1) (groupby stock_symbol l2) /\
  map fst (groupby stock_symbol l1) = map fst (groupby stock_symbol l2).
Proof.
  induction 1 as [|t u k1 k2 Htu _ [IHg IHk]]; [split; constructor|].
  rewrite !groupby_cons.
  assert (Hs : stock_symbol t = stock_symbol u) by apply Htu.
  rewrite Hs.
  destruct (groupby stock_symbol k1) as [|[s1 g1] r1];
    destruct (groupby stock_symbol k2) as [|[s2 g2] r2];
    try discriminate IHk.
  - split; [|reflexivity]. constructor; [|constructor]. simpl.
    constructor; [assumption|constructor].
  - simpl in IHk. injection IHk as <- IHk.
    apply Forall2_cons_iff in IHg as [Hg Hr]. simpl in Hg.
    destruct (String.eqb (stock_symbol u) s1); simpl.
    + split; [|now rewrite IHk].
      constructor; [|assumption]. simpl. now constructor.
    + split; [|now rewrite IHk].
      constructor; [|constructor; assumption]. simpl.
      constructor; [assumption|constructor].
Qed.

(** X27.  The index has no time window and reads of a trade only its
    symbol, its quantity and its price: two logs whose trades agree on
    these, one by one, give the same prices and the same index,
    whatever the timestamps, the sides and the dividends of the
    stocks. *)
Theorem all_share_index_reads (power : Q -> Q -> Q)
    (l1 l2 : list Trade) :
  Forall2 same_for_index l1 l2 ->
  stock_prices (mkStockExchange l1) = stock_prices (mkStockExchange l2) /\
  all_share_index power (mkStockExchange l1)
  = all_share_index power (mkStockExchange l2).
Proof.
  intros H.
  assert (Hp : stock_prices (mkStockExchange l1)
               = stock_prices (mkStockExchange l2)).
  { unfold stock_prices. simpl.
    apply map_result_Forall2
      with (2 := proj1 (groupby_same_for_index l1 l2 H)).
    intros g1 g2 Hg. now apply vwap_same_for_index. }
  split; [exact Hp|].
  unfold all_share_index. rewrite Hp. simpl.
  inversion H; reflexivity.
Qed.

Lemma all_share_index_reads_witness :
  let pop := CommonTypeStock (Stock_init "POP" 100 (Some 8) None) in
  let pop' := PreferredTypeStock
                (Stock_init "pop" 60 None (Some (2 # 100))) in
  let l1 := [mkTrade pop 15 buy 100 0; mkTrade pop 25 buy 60 1] in
  let l2 := [mkTrade pop' 15 sell 100 900000000000;
             mkTrade pop 25 buy 60 0] in
  stock_prices (mkStockExchange l1) = stock_prices (mkStockExchange l2) /\
  all_share_index (fun b e => b * e) (mkStockExchange l1)
  = all_share_index (fun b e => b * e) (mkStockExchange l2).
Proof.
  intros pop pop' l1 l2.
  apply (all_share_index_reads (fun b e => b * e) l1 l2).
  repeat constructor.
Defined.
